(** * sushiscan-dl: the download pipeline, embedded and checked

    The repository holds two variants of the same program:
    - [src/index.ts], the first downloader (module [Index]);
    - a reworked downloader with error handling and a bounded challenge
      loop (module [Revised]).
    Both are embedded below, function by function, next to the small
    amount of platform behaviour they rely on (regular expressions,
    [String.prototype.split], the cli-progress bar, path resolution). *)

From Stdlib Require Import Ascii String.
From stdpp Require Import gmap strings list pretty.

Local Open Scope string_scope.
Local Open Scope list_scope.

(** ** Thrown values and results *)

(** What a JavaScript [throw] carries: an [Error] object with its
    [message], or any other value (kept as [String(value)]). *)
Inductive thrown : Type :=
| ErrorObj (message : string)
| NonError (repr : string).

(** A call that either yields a value or throws. *)
Inductive result (A : Type) : Type :=
| Ok (a : A)
| Throws (e : thrown).
Arguments Ok {A} a.
Arguments Throws {A} e.

(** ** Regular expressions

    The three patterns of the program use literals, greedy quantifiers
    over single character classes, capture groups without nesting and
    the end anchor.  Characters are 8-bit code units. *)

Definition chars (s : string) : list ascii := list_ascii_of_string s.
Definition text (l : list ascii) : string := string_of_list_ascii l.

Definition code (c : ascii) : nat := nat_of_ascii c.

Definition in_range (lo hi : nat) (c : ascii) : bool :=
  (lo <=? code c)%nat && (code c <=? hi)%nat.

(** [\d] *)
Definition is_digit (c : ascii) : bool := in_range 48 57 c.

(** [\w] is [[A-Za-z0-9_]]. *)
Definition is_word (c : ascii) : bool :=
  in_range 65 90 c || in_range 97 122 c || is_digit c || (code c =? 95)%nat.

(** [\s]: tab, line feed, vertical tab, form feed, carriage return, space
    and no-break space (the white space of ECMAScript below 256). *)
Definition is_space (c : ascii) : bool :=
  in_range 9 13 c || (code c =? 32)%nat || (code c =? 160)%nat.

(** [.] is any character but a line terminator. *)
Definition is_dot (c : ascii) : bool :=
  negb ((code c =? 10)%nat || (code c =? 13)%nat).

Definition ascii_eqb (a b : ascii) : bool := (code a =? code b)%nat.

Fixpoint none_of (cs : list ascii) (c : ascii) : bool :=
  match cs with
  | [] => true
  | x :: cs' => negb (ascii_eqb x c) && none_of cs' c
  end.

Inductive cls : Type :=
| Dot
| Digit
| Word
| Space
| NoneOf (cs : list ascii).

Definition mem (k : cls) (c : ascii) : bool :=
  match k with
  | Dot => is_dot c
  | Digit => is_digit c
  | Word => is_word c
  | Space => is_space c
  | NoneOf cs => none_of cs c
  end.

Inductive re : Type :=
| Lit (l : list ascii)
| Plus (k : cls)
| Star (k : cls)
| Opt (k : cls)
| Group (r : re)
| Seq (r1 r2 : re)
| Eos.

Declare Scope re_scope.
Delimit Scope re_scope with re.
Bind Scope re_scope with re.
Notation "r1 >> r2" := (Seq r1 r2) (at level 60, right associativity) : re_scope.

(** [/wp-content\/upload.+-\d+\.\w+$/] *)
Definition upload_asset_re : re :=
  (Lit (chars "wp-content/upload") >> Plus Dot >> Lit (chars "-") >>
   Plus Digit >> Lit (chars ".") >> Plus Word >> Eos)%re.

(** [/\/([^/-]+)-(\d+)\.\w+$/] *)
Definition folder_name_re : re :=
  (Lit (chars "/") >> Group (Plus (NoneOf (chars "/-"))) >> Lit (chars "-") >>
   Group (Plus Digit) >> Lit (chars ".") >> Plus Word >> Eos)%re.

(** The manifest pattern: the key images between two quote characters
    (code 34), a colon, an optional white space, an opening bracket, a
    group of any number of characters other than the closing bracket,
    and a closing bracket. *)
Definition quote : ascii := ascii_of_nat 34.

Definition images_re : re :=
  (Lit (quote :: chars "images" ++ quote :: chars ":") >> Opt Space >>
   Lit (chars "[") >> Group (Star (NoneOf (chars "]"))) >> Lit (chars "]"))%re.

(** *** The backtracking matcher *)

(** [strip l s] removes the literal [l] from the front of [s]. *)
Fixpoint strip (l s : list ascii) : option (list ascii) :=
  match l with
  | [] => Some s
  | x :: l' =>
      match s with
      | [] => None
      | c :: s' => if ascii_eqb x c then strip l' s' else None
      end
  end.

Section Matcher.
Context {R : Type}.

(** Greedy repetition of a class: take as many characters as possible,
    give one back each time what follows fails. *)
Fixpoint greedy (p : ascii -> bool) (s : list ascii)
    (k : list ascii -> option R) : option R :=
  match s with
  | [] => k []
  | c :: s' =>
      if p c then
        match greedy p s' k with
        | Some x => Some x
        | None => k s
        end
      else k s
  end.

(** [exec r s caps k]: match [r] at the front of [s], with the captures
    closed so far in [caps]; [k] is what follows in the pattern. *)
Fixpoint exec (r : re) (s : list ascii) (caps : list (list ascii))
    (k : list ascii -> list (list ascii) -> option R) : option R :=
  match r with
  | Lit l =>
      match strip l s with
      | Some s' => k s' caps
      | None => None
      end
  | Plus c =>
      match s with
      | [] => None
      | a :: s' => if mem c a then greedy (mem c) s' (fun t => k t caps) else None
      end
  | Star c => greedy (mem c) s (fun t => k t caps)
  | Opt c =>
      match s with
      | [] => k [] caps
      | a :: s' =>
          if mem c a then
            match k s' caps with
            | Some x => Some x
            | None => k s caps
            end
          else k s caps
      end
  | Group r1 =>
      exec r1 s caps
        (fun t caps' => k t (caps' ++ [take (length s - length t) s]))
  | Seq r1 r2 => exec r1 s caps (fun t caps' => exec r2 t caps' k)
  | Eos =>
      match s with
      | [] => k [] caps
      | _ :: _ => None
      end
  end.
End Matcher.

(** The first position where the pattern matches, from the left; the
    result is the matched text followed by the captures, as the array
    [String.prototype.match] returns for a pattern without the g flag. *)
Fixpoint search (r : re) (s : list ascii) : option (list (list ascii)) :=
  match exec r s [] (fun t caps => Some (take (length s - length t) s :: caps)) with
  | Some m => Some m
  | None =>
      match s with
      | [] => None
      | _ :: s' => search r s'
      end
  end.

(** [s.match(r)]: [None] is JavaScript's [null]. *)
Definition js_match (r : re) (s : string) : option (list string) :=
  option_map (map text) (search r (chars s)).

(** What a pattern denotes: [denotes r w rest cs] says that [r] matches
    the text [w] when [rest] follows it, closing the captures [cs]. *)
Fixpoint denotes (r : re) (w rest : list ascii) (cs : list (list ascii)) : Prop :=
  match r with
  | Lit l => w = l /\ cs = []
  | Plus c => w <> [] /\ forallb (mem c) w = true /\ cs = []
  | Star c => forallb (mem c) w = true /\ cs = []
  | Opt c => (w = [] \/ exists a, w = [a] /\ mem c a = true) /\ cs = []
  | Group r1 => exists cs1, denotes r1 w rest cs1 /\ cs = cs1 ++ [w]
  | Seq r1 r2 =>
      exists w1 w2 cs1 cs2,
        w = w1 ++ w2 /\ cs = cs1 ++ cs2 /\
        denotes r1 w1 (w2 ++ rest) cs1 /\ denotes r2 w2 rest cs2
  | Eos => w = [] /\ rest = [] /\ cs = []
  end.

(** ** [String.prototype.split] on a one-character separator *)

Fixpoint split_on (sep : ascii) (s : list ascii) : list (list ascii) :=
  match s with
  | [] => [[]]
  | c :: s' =>
      if ascii_eqb c sep then [] :: split_on sep s'
      else
        match split_on sep s' with
        | f :: fs => (c :: f) :: fs
        | [] => [[c]]
        end
  end.

Definition js_split (s sep : string) : list string :=
  match chars sep with
  | [c] => map text (split_on c (chars s))
  | _ => [s]
  end.

(** ** The progress bar

    [cliProgress.SingleBar] with the options that the program gives it
    (no [noTTYOutput], no [stopOnComplete]).  [bar_tty] tells whether
    the stream of the bar is a terminal and [bar_active] whether its
    timer is set, that is, whether it has been started and not stopped.
    [start(total, startValue, payload)] returns at once when the stream
    is not a terminal; otherwise it sets the total, the current value
    and the payload and sets the timer.  [update(value, payload)],
    [update(payload)] and [increment()] return at once when the timer is
    not set; otherwise the first sets the current value and the payload,
    the second the payload only, and the third adds one to the current
    value.  [stop()] clears the timer.  A new bar has total 100 and
    value 0. *)

Inductive suffix : Type :=
| Initialisation
| SucceededAfter (url : string) (attempts : nat)
| Essai (attempts : nat) (url message : string)
| SilentRetries (url : string).

Record bar : Type := Bar {
  bar_tty : bool;
  bar_total : nat;
  bar_value : nat;
  bar_payload : option suffix;
  bar_active : bool
}.

Definition new_bar (tty : bool) : bar := Bar tty 100 0 None false.

Definition bar_start (total startValue : nat) (payload : option suffix) (b : bar) : bar :=
  if bar_tty b then Bar true total startValue payload true else b.

Definition bar_update_value (value : nat) (payload : suffix) (b : bar) : bar :=
  if bar_active b then Bar (bar_tty b) (bar_total b) value (Some payload) true else b.

Definition bar_update (payload : suffix) (b : bar) : bar :=
  if bar_active b then Bar (bar_tty b) (bar_total b) (bar_value b) (Some payload) true
  else b.

Definition bar_increment (b : bar) : bar :=
  if bar_active b then Bar (bar_tty b) (bar_total b) (bar_value b + 1) (bar_payload b) true
  else b.

(** ** Paths

    The file of an asset is written at
    [`${destinationFolder}/${folder}/${name}.jpg`]. *)

Definition asset_path (destinationFolder folder name : string) : string :=
  destinationFolder +:+ "/" +:+ folder +:+ "/" +:+ name +:+ ".jpg".

(** The part of the path below the destination folder. *)
Definition asset_relative (folder name : string) : string :=
  folder +:+ "/" +:+ name +:+ ".jpg".

(** Path resolution as the file system performs it on a relative path:
    empty and [.] segments are skipped, [..] leaves the directory reached
    so far.  [None] when the path climbs above its starting directory. *)
Fixpoint resolve_from (stack : list string) (segs : list string) : option (list string) :=
  match segs with
  | [] => Some (rev stack)
  | seg :: segs' =>
      if (seg =? "")%string || (seg =? ".")%string then resolve_from stack segs'
      else if (seg =? "..")%string then
        match stack with
        | [] => None
        | _ :: stack' => resolve_from stack' segs'
        end
      else resolve_from (seg :: stack) segs'
  end.

Definition resolve (rel : string) : option (list string) :=
  resolve_from [] (js_split rel "/").

(** A folder that is one path segment: not empty, without slash and
    without dash. *)
Definition single_segment (folder : string) : Prop :=
  folder <> "" /\
  forall c, In c (chars folder) -> c <> "/"%char /\ c <> "-"%char.

(** A name made of decimal digits, at least one. *)
Definition decimal (name : string) : Prop :=
  name <> "" /\ forall c, In c (chars name) -> is_digit c = true.

(** ** Outcomes of asynchronous functions *)

(** How a call of an [async] function ends: its promise is fulfilled or
    rejected, [process.exit] stops the process inside it, or it has not
    ended within the steps allowed to the model. *)
Inductive outcome (A : Type) : Type :=
| Returned (a : A)
| Rejected (e : thrown)
| Exited (status : nat)
| Running.
Arguments Returned {A} a.
Arguments Rejected {A} e.
Arguments Exited {A} status.
Arguments Running {A}.

(** [error instanceof Error ? error.message : ...] *)
Definition message_or (fallback : string -> string) (e : thrown) : string :=
  match e with
  | ErrorObj m => m
  | NonError r => fallback r
  end.

(** [(error as Error).message] inside a template: a value that is not an
    [Error] has no [message] and prints as undefined. *)
Definition message_of (e : thrown) : string :=
  message_or (fun _ => "undefined") e.

(** ** Cookies and browser *)

Record cookie : Type := Cookie {
  cookie_name : string;
  cookie_value : string;
  cookie_domain : string;
  cookie_path : string
}.

(** The file [./cookies.json] as the program meets it: absent, present
    but failing [fs.readFileSync], present with a text on which
    [JSON.parse] or the spread of its result throws, or present with an
    array of cookies. *)
Inductive cookie_file : Type :=
| Absent
| Unreadable (e : thrown)
| Unparsable (e : thrown)
| Stored (cs : list cookie).

(** Whether [fs.writeFileSync] on the cookie file throws. *)
Definition disk := option thrown.

(** Lines printed on the console; [is_error] tells [console.error] from
    [console.log]. *)
Inductive line : Type :=
| CookiesLoaded (n : nat)
| CookieReadError (message : string)
| CookiesSaved (n : nat)
| CookieSaveError (message : string)
| ValidationStarts
| CloudflareNotice
| ValidationFailed (message : string)
| ImagesDetected (n : nat)
| ProcessingError (message : string)
| DownloadFailed (url message : string)
| Plain (s : string).

Definition is_error (l : line) : bool :=
  match l with
  | CookieReadError _ | CookieSaveError _ | ValidationFailed _
  | ProcessingError _ | DownloadFailed _ _ => true
  | _ => false
  end.

(** What the bootstrap does to the outside, in order. *)
Inductive effect : Type :=
| Launch
| AddCookies (cs : list cookie)
| Goto (url : string)
| ReadTitle
| WaitForURL
| Harvest
| Close
| Printed (l : line).

(** The interactive browser as the bootstrap observes it: the result of
    the navigation, of the n-th read of the title, of the n-th wait for
    the site URL, and the cookies of the context.  Launching the browser,
    opening the page, reading the cookies and closing are taken to
    succeed here; [playwright] and [RevisedSession] below give these
    calls their failures. *)
Record browser : Type := Browser {
  goto : result unit;
  innerText : nat -> result string;
  waitForURL : nat -> result unit;
  context_cookies : list cookie
}.

Definition challenge_title : string := "Just a moment...".

(** ** Responses and downloads *)

Record response : Type := Response {
  resp_url : string;
  resp_status : nat;
  resp_text : result string
}.

(** [ok()] of the response of [context.request.get]: the status is in
    the range 200-299. *)
Definition ok_status (status : nat) : bool :=
  (200 <=? status)%nat && (status <=? 299)%nat.

(** [response.ok()] of a response of the page: the status is 0 or in the
    range 200-299. *)
Definition page_ok (status : nat) : bool :=
  (status =? 0)%nat || ok_status status.

Definition resp_ok (r : response) : bool := page_ok (resp_status r).

(** One attempt of a download as the network and the disk answer it:
    [context.request.get] rejects or gives a response with a status,
    whose [body()] gives the bytes or rejects; [outputFileSync] throws or
    not. *)
Inductive fetched : Type :=
| GetRejects (e : thrown)
| GetResponds (status : nat) (body : result string).

Record attempt : Type := MkAttempt {
  att_fetch : fetched;
  att_disk : option thrown
}.

(** What a download does to the outside, in order. *)
Inductive io : Type :=
| Get (url : string)
| WriteFile (path : string) (body : string)
| Delay (ms : N)
| Err (l : line).

Definition files := gmap string string.

(** The try block of [downloadWithRetry] up to the write: the body
    written, or the value thrown.  [status_message] builds the message of
    the error thrown on a status that is not ok. *)
Definition try_fetch (status_message : nat -> string) (a : attempt) : result string :=
  match att_fetch a with
  | GetRejects e => Throws e
  | GetResponds status body =>
      if ok_status status then
        match body with
        | Throws e => Throws e
        | Ok buffer =>
            match att_disk a with
            | Some e => Throws e
            | None => Ok buffer
            end
        end
      else Throws (ErrorObj (status_message status))
  end.

(** An attempt succeeds when the response is ok, its body is read and the
    file is written. *)
Definition succeeds (a : attempt) : bool :=
  match att_fetch a with
  | GetResponds status (Ok _) =>
      ok_status status && match att_disk a with None => true | Some _ => false end
  | _ => false
  end.

(** [`${prefix}${response.status()}`] *)
Definition http_status (prefix : string) (status : nat) : string :=
  prefix +:+ pretty status.

(** A download created by the response handler. *)
Inductive phase : Type :=
| Fetching   (* inside the loop of downloadWithRetry *)
| Fetched    (* downloadWithRetry has returned *)
| Counted.   (* the callback chained with then has run *)

Record task : Type := Task {
  task_url : string;
  task_folder : string;
  task_name : string;
  task_dest : string;
  task_attempts : nat;
  task_phase : phase
}.

Definition new_task (url folder name dest : string) : task :=
  Task url folder name dest 0 Fetching.

Definition task_with (attempts : nat) (p : phase) (t : task) : task :=
  Task (task_url t) (task_folder t) (task_name t) (task_dest t) attempts p.

(** The number of downloads created for a URL. *)
Definition tasks_for (u : string) (q : list task) : nat :=
  length (filter (fun t => task_url t = u) q).

(** One turn of the loop of [downloadWithRetry]. *)
Inductive turn : Type :=
| Done (b : bar) (fs : files) (tr : list io)
| Again (attempts : nat) (b : bar) (tr : list io).

(** What the event loop does next: deliver a response event to the
    handler, resume the i-th handler suspended on [response.text()], let
    the i-th download make one attempt, or run the callback chained to
    the i-th download. *)
Inductive action : Type :=
| Deliver (r : response)
| Resume (i : nat)
| Try (i : nat) (a : attempt)
| Then (i : nat).

(** The message of the [TypeError] raised by destructuring [null]. *)
Definition not_iterable : thrown :=
  ErrorObj "object null is not iterable (cannot read property Symbol(Symbol.iterator))".

(** [url.endsWith('/')] *)
Definition ends_with_slash (url : string) : bool :=
  match rev (chars url) with
  | c :: _ => ascii_eqb c "/"%char
  | [] => false
  end.

(** [m[i]] on the array returned by a match. *)
Definition at_index (m : list string) (i : nat) : string := default "" (m !! i).

(** * [src/index.ts] *)
Module Index.

(** Lines 10-23. *)
Definition loadSavedCookies (f : cookie_file) : result (list cookie) :=
  match f with
  | Absent => Ok []
  | Unreadable e => Throws e
  | Unparsable e => Throws e
  | Stored cs => Ok cs
  end.

(** Lines 25-30. *)
Definition saveCookies (cookies : list cookie) (d : disk) : result cookie_file :=
  match d with
  | Some e => Throws e
  | None => Ok (Stored cookies)
  end.

(** Lines 43-53: the loop on the title; [n] counts the turns taken. *)
Fixpoint challenge_loop (fuel n : nat) (initial : bool) (b : browser)
    : outcome unit * list effect :=
  match fuel with
  | 0 => (Running, [])
  | S fuel' =>
      match innerText b n with
      | Throws e => (Rejected e, [ReadTitle])
      | Ok t =>
          if (t =? challenge_title)%string then
            let notice :=
              if initial then []
              else [Printed (Plain "is in cloudflare!");
                    Printed (Plain "complete the captcha or close the program and manually import valid cookies in the cookies.json file.")] in
            match waitForURL b n with
            | Throws e => (Rejected e, ReadTitle :: notice ++ [WaitForURL])
            | Ok _ =>
                let '(o, tr) := challenge_loop fuel' (S n) true b in
                (o, ReadTitle :: notice ++ WaitForURL :: tr)
            end
          else (Returned tt, [ReadTitle])
      end
  end.

(** Lines 32-58. *)
Definition preloadCookies (fuel : nat) (url : string)
    (existingCookies : list cookie) (b : browser)
    : outcome (list cookie) * list effect :=
  let setup := [Launch; AddCookies existingCookies; Goto url] in
  match goto b with
  | Throws e => (Rejected e, setup)
  | Ok _ =>
      match challenge_loop fuel 0 false b with
      | (Returned _, tr) => (Returned (context_cookies b), setup ++ tr ++ [Harvest; Close])
      | (Rejected e, tr) => (Rejected e, setup ++ tr)
      | (Exited c, tr) => (Exited c, setup ++ tr)
      | (Running, tr) => (Running, setup ++ tr)
      end
  end.

(** Lines 88-91: the cookies are loaded, validated and saved. *)
Definition manage_cookies (fuel : nat) (url : string) (f : cookie_file)
    (d : disk) (b : browser) : outcome (list cookie) * cookie_file * list effect :=
  let hello := [Printed (Plain "preloading cookies")] in
  match loadSavedCookies f with
  | Throws e => (Rejected e, f, hello)
  | Ok existingCookies =>
      match preloadCookies fuel url existingCookies b with
      | (Returned preloadedCookies, tr) =>
          let tr' := hello ++ tr ++ [Printed (Plain "saving loaded cookies")] in
          match saveCookies preloadedCookies d with
          | Throws e => (Rejected e, f, tr')
          | Ok f' => (Returned preloadedCookies, f', tr')
          end
      | (o, tr) => (o, f, hello ++ tr)
      end
  end.

(** Lines 69-83: one turn of the loop. *)
Definition turn_of (imageUrl folder name : string) (bar1 : bar)
    (destinationFolder : string) (fs : files) (a : attempt) : turn :=
  match try_fetch (http_status "HTTP status ") a with
  | Ok body =>
      let path := asset_path destinationFolder folder name in
      Done (bar_increment bar1) (<[path:=body]> fs) [Get imageUrl; WriteFile path body]
  | Throws error =>
      let errorMessage := message_or (fun r => r) error in
      Again 0 bar1 [Get imageUrl; Err (DownloadFailed imageUrl errorMessage); Delay 10000%N]
  end.

(** Lines 60-85; [env i] is what the i-th attempt meets. *)
Fixpoint downloadWithRetry (fuel : nat) (env : nat -> attempt) (i : nat)
    (imageUrl folder name : string) (bar1 : bar) (destinationFolder : string)
    (fs : files) : outcome unit * bar * files * list io :=
  match fuel with
  | 0 => (Running, bar1, fs, [])
  | S fuel' =>
      match turn_of imageUrl folder name bar1 destinationFolder fs (env i) with
      | Done b fs' tr => (Returned tt, b, fs', tr)
      | Again _ b tr =>
          let '(o, b', fs', tr') :=
            downloadWithRetry fuel' env (S i) imageUrl folder name b destinationFolder fs in
          (o, b', fs', tr ++ tr')
      end
  end.

(** The variables shared by the closures of
    [downloadingSushiscanPageImages] (lines 107-120), the handlers
    suspended on [response.text()] and the rejections of handler calls,
    which nothing catches. *)
Record pipeline : Type := Pipeline {
  taille : nat;
  urlPassed : list string;
  downloadPromises : list task;
  bar1 : bar;
  disk_files : files;
  wire : list io;
  awaiting : list response;
  unhandled : list thrown
}.

(** [tty] tells whether [process.stdout], the stream given to the bar,
    is a terminal. *)
Definition start_state (tty : bool) : pipeline :=
  Pipeline 0 [] [] (new_bar tty) ∅ [] [] [].

Definition primary (url : string) : string :=
  if ends_with_slash url then url else url +:+ "/".

(** Lines 129-135. *)
Definition discover (destinationFolder : string) (r : response) (st : pipeline)
    : pipeline :=
  if resp_ok r && bool_decide (is_Some (js_match upload_asset_re (resp_url r)))
     && negb (bool_decide (resp_url r ∈ urlPassed st)) then
    let imageUrl := resp_url r in
    let passed := urlPassed st ++ [imageUrl] in
    match js_match folder_name_re imageUrl with
    | None =>
        Pipeline (taille st) passed (downloadPromises st) (bar1 st)
          (disk_files st) (wire st) (awaiting st) (unhandled st ++ [not_iterable])
    | Some m =>
        let folder := at_index m 1 in
        let name := at_index m 2 in
        Pipeline (taille st) passed
          (downloadPromises st ++ [new_task imageUrl folder name destinationFolder])
          (bar1 st) (disk_files st) (wire st) (awaiting st) (unhandled st)
    end
  else st.

(** Lines 122-123: the handler up to its first [await]. *)
Definition on_response (url destinationFolder : string) (r : response)
    (st : pipeline) : pipeline :=
  if resp_ok r && (resp_url r =? primary url)%string then
    Pipeline (taille st) (urlPassed st) (downloadPromises st) (bar1 st)
      (disk_files st) (wire st) (awaiting st ++ [r]) (unhandled st)
  else discover destinationFolder r st.

(** Lines 124-135: the handler once [response.text()] has settled. *)
Definition on_text (destinationFolder : string) (r : response) (st : pipeline)
    : pipeline :=
  let reject e :=
    Pipeline (taille st) (urlPassed st) (downloadPromises st) (bar1 st)
      (disk_files st) (wire st) (awaiting st) (unhandled st ++ [e]) in
  match resp_text r with
  | Throws e => reject e
  | Ok body =>
      match js_match images_re body with
      | None => reject not_iterable
      | Some m =>
          let images := at_index m 1 in
          let taille' := length (js_split images ",") in
          discover destinationFolder r
            (Pipeline taille' (urlPassed st) (downloadPromises st)
               (bar_start taille' 0 None (bar1 st))
               (disk_files st) (wire st) (awaiting st) (unhandled st))
      end
  end.

Definition step (url destinationFolder : string) (a : action) (st : pipeline)
    : pipeline :=
  match a with
  | Deliver r => on_response url destinationFolder r st
  | Resume i =>
      match awaiting st !! i with
      | Some r =>
          on_text destinationFolder r
            (Pipeline (taille st) (urlPassed st) (downloadPromises st) (bar1 st)
               (disk_files st) (wire st) (delete i (awaiting st)) (unhandled st))
      | None => st
      end
  | Try i a =>
      match downloadPromises st !! i with
      | Some t =>
          match task_phase t with
          | Fetching =>
              match turn_of (task_url t) (task_folder t) (task_name t) (bar1 st)
                      (task_dest t) (disk_files st) a with
              | Done b fs tr =>
                  Pipeline (taille st) (urlPassed st)
                    (<[i:=task_with (task_attempts t) Fetched t]> (downloadPromises st))
                    b fs (wire st ++ tr) (awaiting st) (unhandled st)
              | Again _ b tr =>
                  Pipeline (taille st) (urlPassed st) (downloadPromises st)
                    b (disk_files st) (wire st ++ tr) (awaiting st) (unhandled st)
              end
          | _ => st
          end
      | None => st
      end
  | Then _ => st
  end.

Definition run (url destinationFolder : string) (acts : list action)
    (st : pipeline) : pipeline :=
  fold_left (fun s a => step url destinationFolder a s) acts st.

End Index.

(** * The reworked downloader *)
Module Revised.

Definition unknown_error (_ : string) : string := "Une erreur inconnue est survenue".

(** Lines 10-26. *)
Definition loadSavedCookies (f : cookie_file) : list cookie * list line :=
  match f with
  | Absent => ([], [])
  | Unreadable e => ([], [CookieReadError (message_or unknown_error e)])
  | Unparsable e => ([], [CookieReadError (message_or unknown_error e)])
  | Stored cs => (cs, [CookiesLoaded (length cs)])
  end.

(** Lines 28-39. *)
Definition saveCookies (cookies : list cookie) (d : disk) (f : cookie_file)
    : cookie_file * list line :=
  match d with
  | None => (Stored cookies, [CookiesSaved (length cookies)])
  | Some e => (f, [CookieSaveError (message_or unknown_error e)])
  end.

(** Lines 53-63: the loop on the title. *)
Fixpoint challenge_loop (fuel attempts : nat) (b : browser)
    : outcome unit * list effect :=
  match fuel with
  | 0 => (Running, [])
  | S fuel' =>
      match innerText b attempts with
      | Throws e => (Rejected e, [ReadTitle])
      | Ok t =>
          if (t =? challenge_title)%string && (attempts <? 5)%nat then
            let notice := if (attempts =? 0)%nat then [Printed CloudflareNotice] else [] in
            match waitForURL b attempts with
            | Throws e => (Rejected e, ReadTitle :: notice ++ [WaitForURL])
            | Ok _ =>
                let '(o, tr) := challenge_loop fuel' (attempts + 1) b in
                (o, ReadTitle :: notice ++ WaitForURL :: tr)
            end
          else (Returned tt, [ReadTitle])
      end
  end.

(** Lines 50-63: the body of the try block. *)
Definition try_block (fuel : nat) (url : string) (b : browser)
    : outcome unit * list effect :=
  match goto b with
  | Throws e => (Rejected e, [Goto url])
  | Ok _ =>
      let '(o, tr) := challenge_loop fuel 0 b in
      (o, Goto url :: tr)
  end.

(** Lines 41-76.  The catch block ends in [process.exit(1)], which
    stops the process there; the finally block runs when the try block
    completes. *)
Definition preloadCookies (fuel : nat) (url : string)
    (existingCookies : list cookie) (b : browser)
    : outcome (list cookie) * list effect :=
  let setup := [Printed ValidationStarts; Launch; AddCookies existingCookies] in
  match try_block fuel url b with
  | (Returned _, tr) => (Returned (context_cookies b), setup ++ tr ++ [Harvest; Close])
  | (Rejected error, tr) =>
      (Exited 1,
       setup ++ tr ++ [Printed (ValidationFailed (message_or unknown_error error))])
  | (Exited c, tr) => (Exited c, setup ++ tr)
  | (Running, tr) => (Running, setup ++ tr)
  end.

(** Lines 120-123: the cookies are loaded, validated and saved. *)
Definition manage_cookies (fuel : nat) (url : string) (f : cookie_file)
    (d : disk) (b : browser) : outcome (list cookie) * cookie_file * list effect :=
  let '(existingCookies, printed) := loadSavedCookies f in
  match preloadCookies fuel url existingCookies b with
  | (Returned validCookies, tr) =>
      let '(f', printed') := saveCookies validCookies d f in
      (Returned validCookies, f', map Printed printed ++ tr ++ map Printed printed')
  | (o, tr) => (o, f, map Printed printed ++ tr)
  end.

Definition maxLoggedAttempts : nat := 3.

(** Lines 91-111: one turn of the loop. *)
Definition turn_of (imageUrl folder name : string) (b : bar)
    (destinationFolder : string) (attempts : nat) (fs : files) (a : attempt) : turn :=
  match try_fetch (http_status "Statut HTTP ") a with
  | Ok buffer =>
      let path := asset_path destinationFolder folder name in
      let b' :=
        if (0 <? attempts)%nat then bar_update_value 1 (SucceededAfter imageUrl attempts) b
        else b in
      Done b' (<[path:=buffer]> fs) [Get imageUrl; WriteFile path buffer]
  | Throws error =>
      let attempts' := attempts + 1 in
      let b' :=
        if (attempts' <=? maxLoggedAttempts)%nat then
          bar_update (Essai attempts' imageUrl (message_of error)) b
        else if (attempts' =? maxLoggedAttempts + 1)%nat then
          bar_update (SilentRetries imageUrl) b
        else b in
      Again attempts' b' [Get imageUrl; Delay 10000%N]
  end.

(** Lines 78-113; [env i] is what the i-th attempt meets. *)
Fixpoint downloadWithRetry (fuel : nat) (env : nat -> attempt) (attempts : nat)
    (imageUrl folder name : string) (b : bar) (destinationFolder : string)
    (fs : files) : outcome unit * bar * files * list io :=
  match fuel with
  | 0 => (Running, b, fs, [])
  | S fuel' =>
      match turn_of imageUrl folder name b destinationFolder attempts fs (env attempts) with
      | Done b' fs' tr => (Returned tt, b', fs', tr)
      | Again attempts' b' tr =>
          let '(o, b'', fs', tr') :=
            downloadWithRetry fuel' env attempts' imageUrl folder name b'
              destinationFolder fs in
          (o, b'', fs', tr ++ tr')
      end
  end.

(** The variables shared by the closures of
    [downloadingSushiscanPageImages] (lines 137-150), the console and
    the handlers suspended on [response.text()]. *)
Record pipeline : Type := Pipeline {
  totalImages : nat;
  downloadQueue : list task;
  processedUrls : gset string;
  progressBar : bar;
  disk_files : files;
  wire : list io;
  console : list line;
  awaiting : list response
}.

(** [tty] tells whether [process.stderr], the default stream of the
    bar, is a terminal. *)
Definition start_state (tty : bool) : pipeline :=
  Pipeline 0 [] ∅ (new_bar tty) ∅ [] [] [].

(** Lines 177-183: the catch block of the handler. *)
Definition caught (error : thrown) (st : pipeline) : pipeline :=
  Pipeline (totalImages st) (downloadQueue st) (processedUrls st) (progressBar st)
    (disk_files st) (wire st)
    (console st ++ [ProcessingError (message_or (fun r => r) error)]) (awaiting st).

(** Lines 166-176. *)
Definition discover (destinationFolder : string) (r : response) (st : pipeline)
    : pipeline :=
  if bool_decide (is_Some (js_match upload_asset_re (resp_url r)))
     && negb (bool_decide (resp_url r ∈ processedUrls st)) then
    let st1 :=
      Pipeline (totalImages st) (downloadQueue st) ({[resp_url r]} ∪ processedUrls st)
        (progressBar st) (disk_files st) (wire st) (console st) (awaiting st) in
    match js_match folder_name_re (resp_url r) with
    | None => caught not_iterable st1
    | Some m =>
        let folder := at_index m 1 in
        let name := at_index m 2 in
        Pipeline (totalImages st1)
          (downloadQueue st1 ++ [new_task (resp_url r) folder name destinationFolder])
          (processedUrls st1) (progressBar st1) (disk_files st1) (wire st1)
          (console st1) (awaiting st1)
    end
  else st.

(** Lines 154-157: the handler up to its first [await]. *)
Definition on_response (url destinationFolder : string) (r : response)
    (st : pipeline) : pipeline :=
  if (resp_url r =? url)%string && resp_ok r then
    Pipeline (totalImages st) (downloadQueue st) (processedUrls st) (progressBar st)
      (disk_files st) (wire st) (console st) (awaiting st ++ [r])
  else discover destinationFolder r st.

(** Lines 157-176: the handler once [response.text()] has settled. *)
Definition on_text (destinationFolder : string) (r : response) (st : pipeline)
    : pipeline :=
  match resp_text r with
  | Throws e => caught e st
  | Ok body =>
      match js_match images_re body with
      | None => caught (ErrorObj "Format de réponse inattendu") st
      | Some m =>
          let totalImages' := length (js_split (at_index m 1) ",") in
          discover destinationFolder r
            (Pipeline totalImages' (downloadQueue st) (processedUrls st)
               (bar_start totalImages' 0 (Some Initialisation) (progressBar st))
               (disk_files st) (wire st)
               (console st ++ [ImagesDetected totalImages']) (awaiting st))
      end
  end.

Definition step (url destinationFolder : string) (a : action) (st : pipeline)
    : pipeline :=
  match a with
  | Deliver r => on_response url destinationFolder r st
  | Resume i =>
      match awaiting st !! i with
      | Some r =>
          on_text destinationFolder r
            (Pipeline (totalImages st) (downloadQueue st) (processedUrls st)
               (progressBar st) (disk_files st) (wire st) (console st)
               (delete i (awaiting st)))
      | None => st
      end
  | Try i a =>
      match downloadQueue st !! i with
      | Some t =>
          match task_phase t with
          | Fetching =>
              match turn_of (task_url t) (task_folder t) (task_name t) (progressBar st)
                      (task_dest t) (task_attempts t) (disk_files st) a with
              | Done b fs tr =>
                  Pipeline (totalImages st)
                    (<[i:=task_with (task_attempts t) Fetched t]> (downloadQueue st))
                    (processedUrls st) b fs (wire st ++ tr) (console st) (awaiting st)
              | Again attempts' b tr =>
                  Pipeline (totalImages st)
                    (<[i:=task_with attempts' Fetching t]> (downloadQueue st))
                    (processedUrls st) b (disk_files st) (wire st ++ tr) (console st)
                    (awaiting st)
              end
          | _ => st
          end
      | None => st
      end
  | Then i =>
      match downloadQueue st !! i with
      | Some t =>
          match task_phase t with
          | Fetched =>
              Pipeline (totalImages st)
                (<[i:=task_with (task_attempts t) Counted t]> (downloadQueue st))
                (processedUrls st) (bar_increment (progressBar st)) (disk_files st)
                (wire st) (console st) (awaiting st)
          | _ => st
          end
      | None => st
      end
  end.

Definition run (url destinationFolder : string) (acts : list action)
    (st : pipeline) : pipeline :=
  fold_left (fun s a => step url destinationFolder a s) acts st.

End Revised.

(** * Statements about runs *)

(** What the handler wrote in a task when it created it. *)
Definition descriptor_of (dest : string) (t : task) : Prop :=
  exists m, js_match folder_name_re (task_url t) = Some m /\
            task_folder t = at_index m 1 /\ task_name t = at_index m 2 /\
            task_dest t = dest.

(** The invariant of the queue of downloads and of the URLs already
    seen: no URL is queued twice, every queued URL has been seen, every
    task carries the captures of its URL, and every seen URL that the
    extraction pattern matches is queued. *)
Record queue_inv (dest : string) (q : list task) (seen : string -> Prop) : Prop := QueueInv {
  inv_nodup : NoDup (task_url <$> q);
  inv_seen : Forall (fun t => seen (task_url t)) q;
  inv_descr : Forall (descriptor_of dest) q;
  inv_queued : forall u, seen u -> is_Some (js_match folder_name_re u) ->
                         u ∈ task_url <$> q
}.

Definition revised_inv (dest : string) (st : Revised.pipeline) : Prop :=
  queue_inv dest (Revised.downloadQueue st) (fun u => u ∈ Revised.processedUrls st).

Definition index_inv (dest : string) (st : Index.pipeline) : Prop :=
  queue_inv dest (Index.downloadPromises st) (fun u => u ∈ Index.urlPassed st).

(** ** Statements about downloads *)

(** The first [k] attempts fail. *)
Definition all_fail (env : nat -> attempt) (k : nat) : Prop :=
  forall i, i < k -> succeeds (env i) = false.

(** The attempt [k] is the first that succeeds. *)
Definition first_success (env : nat -> attempt) (k : nat) : Prop :=
  all_fail env k /\ succeeds (env k) = true.

(** What [k] failed attempts of the reworked download leave on the wire:
    each is a request followed by a delay of 10 seconds. *)
Definition revised_retries (u : string) (k : nat) : list io :=
  concat (replicate k [Get u; Delay 10000%N]).

(** The message [src/index.ts] prints for a failed attempt. *)
Definition index_failure (a : attempt) : string :=
  match try_fetch (http_status "HTTP status ") a with
  | Throws e => message_or (fun r => r) e
  | Ok _ => ""
  end.

(** What [k] failed attempts of [src/index.ts], from the attempt [n] on,
    leave on the wire: a request, the printed failure and a delay of 10
    seconds each. *)
Fixpoint index_retries (env : nat -> attempt) (u : string) (n k : nat) : list io :=
  match k with
  | 0 => []
  | S k' =>
      [Get u; Err (DownloadFailed u (index_failure (env n))); Delay 10000%N]
        ++ index_retries env u (S n) k'
  end.

(** ** Sample inputs *)

Definition ok_response (u : string) : response := Response u 200 (Ok "").

Definition onepiece_001 : string :=
  "https://sushiscan.net/wp-content/uploads/OnePiece-001.jpg".

Definition one_piece_1 : string :=
  "https://sushiscan.net/wp-content/uploads/one-piece-1.jpg".

Definition chapter : string := "https://sushiscan.net/one-piece-volume-1/".


(** Two failures with status 503, then a success. *)
Definition flaky (i : nat) : attempt :=
  if (i <? 2)%nat then MkAttempt (GetResponds 503 (Ok "")) None
  else MkAttempt (GetResponds 200 (Ok "JPEG")) None.

(** A document that holds the manifest with the given text between the
    brackets. *)
Definition manifest_body (items : string) : string :=
  "ts_reader.run({" +:+ text (quote :: chars "images" ++ [quote]) +:+ ": ["
    +:+ items +:+ "]});".

Definition primary_response (url items : string) : response :=
  Response url 200 (Ok (manifest_body items)).

Definition onepiece_002 : string :=
  "https://sushiscan.net/wp-content/uploads/OnePiece-002.jpg".

Definition onepiece_003 : string :=
  "https://sushiscan.net/wp-content/uploads/OnePiece-003.jpg".

Definition success : attempt := MkAttempt (GetResponds 200 (Ok "JPEG")) None.

Definition unavailable : attempt := MkAttempt (GetResponds 503 (Ok "")) None.

(** The number of commas of a text. *)
Definition commas (s : string) : nat :=
  length (filter (fun c => c = ","%char) (chars s)).

(** The elements of a list written with commas between them. *)
Fixpoint join_commas (es : list string) : string :=
  match es with
  | [] => ""
  | [e] => e
  | e :: es' => e +:+ "," +:+ join_commas es'
  end.

(** ** Statements about the bootstrap *)

(** The number of waits for the site URL in a trace: the number of turns
    of the challenge loop. *)
Fixpoint waits (tr : list effect) : nat :=
  match tr with
  | [] => 0
  | WaitForURL :: tr' => S (waits tr')
  | _ :: tr' => waits tr'
  end.

(** Whether a trace prints an error. *)
Definition reports_failure (tr : list effect) : bool :=
  existsb (fun e => match e with Printed l => is_error l | _ => false end) tr.

(** Whether a trace closes the browser. *)
Definition closes (tr : list effect) : bool :=
  existsb (fun e => match e with Close => true | _ => false end) tr.

Definition session : list cookie :=
  [Cookie "cf_clearance" "abc" ".sushiscan.net" "/"].

(** A browser that shows the challenge page for ever. *)
Definition stuck : browser :=
  Browser (Ok tt) (fun _ => Ok challenge_title) (fun _ => Ok tt) session.

(** A browser whose navigation times out. *)
Definition unreachable : browser :=
  Browser (Throws (ErrorObj "page.goto: Timeout 30000ms exceeded."))
    (fun _ => Ok "One Piece") (fun _ => Ok tt) session.

(** A browser that reaches the page at once. *)
Definition welcome : browser :=
  Browser (Ok tt) (fun _ => Ok "One Piece") (fun _ => Ok tt) session.

Definition truncated_json : cookie_file :=
  Unparsable (ErrorObj "Unexpected end of JSON input").

Definition disk_full : disk :=
  Some (ErrorObj "ENOSPC: no space left on device, write").

(** A URL that the filter accepts and whose last segment begins with two
    dots. *)
Definition dotdot_1 : string :=
  "https://sushiscan.net/wp-content/uploads/2024/..-1.jpg".

(** * Further statements *)


(** What the handler writes in a task when it creates it. *)
Definition descriptor (t : task) : string * string * string * string :=
  (task_url t, task_folder t, task_name t, task_dest t).


(** Whether [downloadWithRetry] has returned for a task. *)
Definition has_returned (t : task) : bool :=
  match task_phase t with
  | Fetching => false
  | _ => true
  end.




(** A text whose last character is a word character. *)
Definition ends_in_word (l : list ascii) : Prop :=
  exists pre c, l = pre ++ [c] /\ is_word c = true.

(** The value thrown by a failed attempt of the reworked download. *)
Definition revised_error (a : attempt) : thrown :=
  match try_fetch (http_status "Statut HTTP ") a with
  | Throws e => e
  | Ok _ => ErrorObj ""
  end.

(** The suffix that the reworked download shows after [k] failed
    attempts: the attempt number and the last error up to the third, the
    notice of silent retries from the fourth on. *)
Definition revised_diagnostic (u : string) (env : nat -> attempt) (k : nat) : suffix :=
  if (k <=? 3)%nat then Essai k u (message_of (revised_error (env (k - 1))))
  else SilentRetries u.

(** The number of times the operator is told about the challenge. *)
Fixpoint guidance (tr : list effect) : nat :=
  match tr with
  | [] => 0
  | Printed CloudflareNotice :: tr' => S (guidance tr')
  | Printed (Plain s) :: tr' =>
      if (s =? "is in cloudflare!")%string then S (guidance tr') else guidance tr'
  | _ :: tr' => guidance tr'
  end.

(** Whether the navigation succeeds and the first title read is the
    challenge title. *)
Definition meets_challenge (b : browser) : bool :=
  match goto b, innerText b 0 with
  | Ok _, Ok t => (t =? challenge_title)%string
  | _, _ => false
  end.

(** The challenge is shown during the first [n] turns and the waits
    succeed. *)
Definition challenged (b : browser) (n : nat) : Prop :=
  forall i, i < n -> innerText b i = Ok challenge_title /\ waitForURL b i = Ok tt.

(** A browser that shows the challenge twice, then the page. *)
Definition solved_after_two : browser :=
  Browser (Ok tt) (fun i => if (i <? 2)%nat then Ok challenge_title else Ok "One Piece")
    (fun _ => Ok tt) session.

(** A response that is not successful. *)
Definition not_found (u : string) : response := Response u 404 (Ok "Not Found").

(** * The main function: navigation, scrolling and drain *)

(** [progressBar.stop()] *)
Definition bar_stop (b : bar) : bar :=
  Bar (bar_tty b) (bar_total b) (bar_value b) (bar_payload b) false.

(** Where the main function stands: it awaits the navigation, the list of
    images, the scroll of the image [i] of [n] or the idle network after
    it, the idle network after the last image ([src/index.ts] only), the
    downloads, or it has ended. *)
Inductive stage : Type :=
| Navigating
| Locating
| Scrolling (i n : nat) (idle : bool)
| Settling
| Draining
| Ended (o : outcome unit).

(** What the event loop does next: an action of the pipeline, or the
    settling of the promise that the main function awaits (a plain one,
    the list of images with its length, or [Promise.all]). *)
Inductive signal : Type :=
| Work (a : action)
| Settle (r : result unit)
| Located (r : result nat)
| Drained.

Inductive notice : Type :=
| LoadingPage
| LoadingImages
| Finalising
| WaitingDownloads
| Succeeded (dest : string)
| Complete
| Critical (message : string).

(** What the main function does to the outside, in order. *)
Inductive deed : Type :=
| Say (l : notice)
| ShowImage (i n : nat)
| ScrollTo (i : nat)
| StopBar
| CloseBrowser
| Exit (status : nat).


Definition mentions (p : deed -> bool) (ds : list deed) : bool := existsb p ds.

Definition is_close (d : deed) : bool :=
  match d with
  | CloseBrowser => true
  | _ => false
  end.

Definition is_stop (d : deed) : bool :=
  match d with
  | StopBar => true
  | _ => false
  end.

Definition is_success (d : deed) : bool :=
  match d with
  | Say (Succeeded _) => true
  | Say Complete => true
  | _ => false
  end.

(** The first [k] downloads of the queue satisfy [p]. *)
Definition first_downloads (p : task -> bool) (k : nat) (q : list task) : bool :=
  forallb p (take k q).

Definition is_counted (t : task) : bool :=
  match task_phase t with
  | Counted => true
  | _ => false
  end.

(** ** The main function of the reworked downloader (lines 186-217) *)
Module RevisedRun.

Record controller : Type := Controller {
  pipe : Revised.pipeline;
  at_stage : stage;
  awaited : nat;
  located : nat;
  deeds : list deed
}.

(** The state when [page.goto] has been called (line 189). *)
Definition start_state (tty : bool) : controller :=
  Controller (Revised.start_state tty) Navigating 0 0 [Say LoadingPage].

(** Lines 206-213: the catch block, which ends in [process.exit(1)]. *)
Definition fail (error : thrown) (c : controller) : controller :=
  Controller (pipe c) (Ended (Exited 1)) (awaited c) (located c)
    (deeds c ++ [Say (Critical (message_or (fun r => r) error)); Exit 1]).

(** Lines 200-202: [Promise.all] is called on the queue as it is. *)
Definition drain (c : controller) (said : list deed) : controller :=
  Controller (pipe c) Draining (length (Revised.downloadQueue (pipe c))) (located c)
    (deeds c ++ said ++ [Say Finalising]).

(** Lines 195-196: the suffix is set and the image [i] scrolled. *)
Definition scroll (i n : nat) (c : controller) (said : list deed) : controller :=
  Controller (pipe c) (Scrolling i n false) (awaited c) n
    (deeds c ++ said ++ [ShowImage (i + 1) n; ScrollTo i]).

(** Lines 204-205 and 214-217: the success is printed, then the finally
    block stops the bar and closes the browser. *)
Definition finish (dest : string) (c : controller) : controller :=
  let p := pipe c in
  Controller
    (Revised.Pipeline (Revised.totalImages p) (Revised.downloadQueue p)
       (Revised.processedUrls p) (bar_stop (Revised.progressBar p))
       (Revised.disk_files p) (Revised.wire p) (Revised.console p) (Revised.awaiting p))
    (Ended (Returned tt)) (awaited c) (located c)
    (deeds c ++ [Say (Succeeded dest); StopBar; CloseBrowser]).

Definition step (url dest : string) (s : signal) (c : controller) : controller :=
  match at_stage c, s with
  | Ended (Exited _), _ => c
  | _, Work a =>
      Controller (Revised.step url dest a (pipe c)) (at_stage c) (awaited c)
        (located c) (deeds c)
  | Navigating, Settle (Ok _) =>
      Controller (pipe c) Locating (awaited c) (located c) (deeds c ++ [Say LoadingImages])
  | Navigating, Settle (Throws e) => fail e c
  | Locating, Located (Ok n) =>
      match n with
      | 0 => drain (Controller (pipe c) (at_stage c) (awaited c) 0 (deeds c)) []
      | S _ => scroll 0 n c []
      end
  | Locating, Located (Throws e) => fail e c
  | Scrolling i n false, Settle (Ok _) =>
      Controller (pipe c) (Scrolling i n true) (awaited c) (located c) (deeds c)
  | Scrolling i n true, Settle (Ok _) =>
      if (i + 1 <? n)%nat then scroll (i + 1) n c [] else drain c []
  | Scrolling _ _ _, Settle (Throws e) => fail e c
  | Draining, Drained =>
      if first_downloads is_counted (awaited c) (Revised.downloadQueue (pipe c))
      then finish dest c else c
  | _, _ => c
  end.

Definition run (url dest : string) (ss : list signal) (c : controller) : controller :=
  fold_left (fun c s => step url dest s c) ss c.

End RevisedRun.

(** ** The main function of [src/index.ts] (lines 138-157) *)
Module IndexRun.

Record controller : Type := Controller {
  pipe : Index.pipeline;
  at_stage : stage;
  awaited : nat;
  located : nat;
  deeds : list deed
}.

(** The state when [page.goto] has been called (line 138). *)
Definition start_state (tty : bool) : controller :=
  Controller (Index.start_state tty) Navigating 0 0 [Say LoadingPage].

(** Nothing catches: the promise of the main function is rejected. *)
Definition fail (error : thrown) (c : controller) : controller :=
  Controller (pipe c) (Ended (Rejected error)) (awaited c) (located c) (deeds c).

(** Line 151: the idle network is awaited once more after the scroll. *)
Definition settle (c : controller) : controller :=
  Controller (pipe c) Settling (awaited c) (located c) (deeds c).

(** Lines 145-148: the image [i] is scrolled. *)
Definition scroll (i n : nat) (c : controller) : controller :=
  Controller (pipe c) (Scrolling i n false) (awaited c) n (deeds c ++ [ScrollTo i]).

(** Lines 152-153: [Promise.all] is called on the promises as they are. *)
Definition drain (c : controller) : controller :=
  Controller (pipe c) Draining (length (Index.downloadPromises (pipe c))) (located c)
    (deeds c ++ [Say WaitingDownloads]).

(** Lines 154-157. *)
Definition finish (c : controller) : controller :=
  let p := pipe c in
  Controller
    (Index.Pipeline (Index.taille p) (Index.urlPassed p) (Index.downloadPromises p)
       (bar_stop (Index.bar1 p)) (Index.disk_files p) (Index.wire p)
       (Index.awaiting p) (Index.unhandled p))
    (Ended (Returned tt)) (awaited c) (located c)
    (deeds c ++ [Say Complete; StopBar; CloseBrowser]).

Definition step (url dest : string) (s : signal) (c : controller) : controller :=
  match at_stage c, s with
  | _, Work a =>
      Controller (Index.step url dest a (pipe c)) (at_stage c) (awaited c)
        (located c) (deeds c)
  | Navigating, Settle (Ok _) =>
      Controller (pipe c) Locating (awaited c) (located c) (deeds c)
  | Navigating, Settle (Throws e) => fail e c
  | Locating, Located (Ok n) =>
      match n with
      | 0 => settle (Controller (pipe c) (at_stage c) (awaited c) 0 (deeds c))
      | S _ => scroll 0 n c
      end
  | Locating, Located (Throws e) => fail e c
  | Scrolling i n false, Settle (Ok _) =>
      Controller (pipe c) (Scrolling i n true) (awaited c) (located c) (deeds c)
  | Scrolling i n true, Settle (Ok _) =>
      if (i + 1 <? n)%nat then scroll (i + 1) n c else settle c
  | Scrolling _ _ _, Settle (Throws e) => fail e c
  | Settling, Settle (Ok _) => drain c
  | Settling, Settle (Throws e) => fail e c
  | Draining, Drained =>
      if first_downloads has_returned (awaited c) (Index.downloadPromises (pipe c))
      then finish c else c
  | _, _ => c
  end.

Definition run (url dest : string) (ss : list signal) (c : controller) : controller :=
  fold_left (fun c s => step url dest s c) ss c.

End IndexRun.

(** ** Invariants of the main functions *)

(** Deeds without success message, stop of the bar or close of the
    browser. *)
Definition quiet (ds : list deed) : Prop :=
  mentions is_close ds = false /\ mentions is_stop ds = false /\
  mentions is_success ds = false.




(** ** Sample runs of the main function *)

Definition navigation_timeout : thrown :=
  ErrorObj "page.goto: Timeout 120000ms exceeded.".



(** * The bootstrap when the calls around its try block fail *)

(** How the calls of the reworked [preloadCookies] that stand outside
    its try block end: [firefox.launch], [browser.newContext],
    [context.addCookies] and [context.newPage] before it (lines 43-47),
    [context.cookies] and [browser.close] in the finally block (lines
    72-73). *)
Record playwright : Type := Playwright {
  pw_launch : result unit;
  pw_newContext : result unit;
  pw_addCookies : result unit;
  pw_newPage : result unit;
  pw_cookies : result unit;
  pw_close : result unit
}.

(** The first rejection in a sequence of awaited calls, if any. *)
Fixpoint first_rejection (calls : list (result unit)) : option thrown :=
  match calls with
  | [] => None
  | Throws e :: _ => Some e
  | Ok _ :: calls' => first_rejection calls'
  end.

Module RevisedSession.

(** Lines 43-47: the calls made before the try block, and the rejection
    that ends them, if any. *)
Definition opening (existingCookies : list cookie) (p : playwright)
    : option thrown * list effect :=
  match pw_launch p with
  | Throws e => (Some e, [Launch])
  | Ok _ =>
      match pw_newContext p with
      | Throws e => (Some e, [Launch])
      | Ok _ =>
          match pw_addCookies p with
          | Throws e => (Some e, [Launch; AddCookies existingCookies])
          | Ok _ =>
              match pw_newPage p with
              | Throws e => (Some e, [Launch; AddCookies existingCookies])
              | Ok _ => (None, [Launch; AddCookies existingCookies])
              end
          end
      end
  end.

(** Lines 72-74: the finally block. *)
Definition finally (p : playwright) (b : browser)
    : outcome (list cookie) * list effect :=
  match pw_cookies p with
  | Throws e => (Rejected e, [Harvest])
  | Ok _ =>
      match pw_close p with
      | Throws e => (Rejected e, [Harvest; Close])
      | Ok _ => (Returned (context_cookies b), [Harvest; Close])
      end
  end.

(** Lines 41-76.  A rejection before the try block or inside the
    finally block rejects the call; the catch block ends in
    [process.exit(1)], after which the finally block does not run. *)
Definition preloadCookies (p : playwright) (fuel : nat) (url : string)
    (existingCookies : list cookie) (b : browser)
    : outcome (list cookie) * list effect :=
  match opening existingCookies p with
  | (Some e, tr0) => (Rejected e, Printed ValidationStarts :: tr0)
  | (None, tr0) =>
      let setup := Printed ValidationStarts :: tr0 in
      match Revised.try_block fuel url b with
      | (Returned _, tr) =>
          let '(o, tr') := finally p b in (o, setup ++ tr ++ tr')
      | (Rejected error, tr) =>
          (Exited 1,
           setup ++ tr
             ++ [Printed (ValidationFailed (message_or Revised.unknown_error error))])
      | (Exited c, tr) => (Exited c, setup ++ tr)
      | (Running, tr) => (Running, setup ++ tr)
      end
  end.

End RevisedSession.

(** The calls around the try block all succeed. *)
Definition untroubled : playwright :=
  Playwright (Ok tt) (Ok tt) (Ok tt) (Ok tt) (Ok tt) (Ok tt).

(** The browser closes with an error after the cookies were read. *)
Definition close_fails : playwright :=
  Playwright (Ok tt) (Ok tt) (Ok tt) (Ok tt) (Ok tt)
    (Throws (ErrorObj "browser.close: Target page, context or browser has been closed")).

(** * The command line *)

(** The values that [minimist] gives to an option or a positional
    argument. *)
Inductive jsval : Type :=
| Undefined
| Boolean (b : bool)
| Number (z : Z)
| Text (s : string).

(** Truthiness, as [if], [!] and [||] test it. *)
Definition truthy (v : jsval) : bool :=
  match v with
  | Undefined => false
  | Boolean b => b
  | Number z => negb (z =? 0)%Z
  | Text s => negb (s =? "")%string
  end.

(** [a || b] *)
Definition js_or (a b : jsval) : jsval := if truthy a then a else b.

(** The object returned by [minimist(process.argv.slice(2))], as far as
    the program reads it. *)
Record parsed : Type := Parsed {
  opt_h : jsval;
  opt_help : jsval;
  opt_d : jsval;
  opt_dest : jsval;
  positional : list jsval
}.

(** [args._[0]] *)
Definition first_positional (a : parsed) : jsval :=
  default Undefined (positional a !! 0).

(** What the top level of the program does, in order. *)
Inductive act : Type :=
| ShowArgs
| ShowHelp
| ShowUsage
| EnsureDir (dest : jsval)
| Download (url dest : jsval)
| ShowUnhandled (message : string)
| Uncaught (e : thrown)
| Terminate (status : nat).

(** Lines 220-247 of the reworked downloader; [mkdir] is how
    [fsExtra.ensureDirSync] ends and [ending] how the promise of
    [downloadingSushiscanPageImages] ends. *)
Definition revised_main (a : parsed) (mkdir : result unit) (ending : outcome unit)
    : list act :=
  if truthy (js_or (opt_h a) (opt_help a)) then [ShowHelp; Terminate 0]
  else
    let destination := js_or (opt_d a) (js_or (opt_dest a) (Text "./dl")) in
    let targetUrl := first_positional a in
    if negb (truthy targetUrl) then [ShowUsage; Terminate 1]
    else
      match mkdir with
      | Throws e => [EnsureDir destination; Uncaught e]
      | Ok _ =>
          [EnsureDir destination; Download targetUrl destination]
            ++ match ending with
               | Rejected error =>
                   [ShowUnhandled (message_of error); Terminate 1]
               | Exited status => [Terminate status]
               | _ => []
               end
      end.

(** Lines 160-177 of [src/index.ts]. *)
Definition index_main (a : parsed) (mkdir : result unit) (ending : outcome unit)
    : list act :=
  [ShowArgs]
    ++ (if truthy (js_or (opt_h a) (opt_help a)) then [ShowHelp] else [])
    ++ let destinationFolder := js_or (opt_d a) (Text "./dl") in
       match mkdir with
       | Throws e => [EnsureDir destinationFolder; Uncaught e]
       | Ok _ =>
           let url := first_positional a in
           EnsureDir destinationFolder
             :: (if negb (truthy url) then [ShowUsage; Terminate 1]
                 else Download url destinationFolder
                        :: match ending with
                           | Rejected error => [Uncaught error]
                           | Exited status => [Terminate status]
                           | _ => []
                           end)
       end.

(** Whether the program creates the destination folder, and whether it
    starts the download. *)
Definition creates_folder (l : list act) : bool :=
  existsb (fun x => match x with EnsureDir _ => true | _ => false end) l.

Definition starts_download (l : list act) : bool :=
  existsb (fun x => match x with Download _ _ => true | _ => false end) l.

(** * Properties *)

(** ** Sanity checks of the patterns *)

Example upload_asset_re_ex1 :
  js_match upload_asset_re "https://sushiscan.net/wp-content/uploads/OnePiece-001.jpg"
  = Some ["wp-content/uploads/OnePiece-001.jpg"].
Proof. vm_compute. reflexivity. Qed.

Example folder_name_re_ex1 :
  js_match folder_name_re "https://sushiscan.net/wp-content/uploads/OnePiece-001.jpg"
  = Some ["/OnePiece-001.jpg"; "OnePiece"; "001"].
Proof. vm_compute. reflexivity. Qed.

Example folder_name_re_ex2 :
  js_match folder_name_re "https://sushiscan.net/wp-content/uploads/one-piece-1.jpg" = None
  /\ js_match upload_asset_re "https://sushiscan.net/wp-content/uploads/one-piece-1.jpg" <> None.
Proof. vm_compute. split; [reflexivity | discriminate]. Qed.

Example images_re_ex1 :
  js_match images_re ("{" +:+ text [quote] +:+ "images" +:+ text [quote] +:+ ": [1,2,3]}")
  = Some [text [quote] +:+ "images" +:+ text [quote] +:+ ": [1,2,3]"; "1,2,3"].
Proof. vm_compute. reflexivity. Qed.

Example split_ex : js_split "1,2,3" "," = ["1"; "2"; "3"] /\ js_split "" "," = [""].
Proof. vm_compute. split; reflexivity. Qed.

(** ** The matcher is sound for the denotation *)

Lemma ascii_eqb_eq (a b : ascii) : ascii_eqb a b = true <-> a = b.
Proof.
  unfold ascii_eqb, code. rewrite Nat.eqb_eq. split.
  - intros H. rewrite <- (ascii_nat_embedding a), <- (ascii_nat_embedding b).
    now rewrite H.
  - now intros ->.
Qed.

Lemma strip_sound (l s s' : list ascii) : strip l s = Some s' -> s = l ++ s'.
Proof.
  revert s. induction l as [|x l IH]; intros s; simpl.
  - now intros [= ->].
  - destruct s as [|c s]; [discriminate|].
    destruct (ascii_eqb x c) eqn:E; [|discriminate].
    apply ascii_eqb_eq in E as ->. intros H. now rewrite (IH _ H).
Qed.

Lemma greedy_sound {R : Type} (p : ascii -> bool) (s : list ascii)
    (k : list ascii -> option R) (x : R) :
  greedy p s k = Some x ->
  exists w rest, s = w ++ rest /\ forallb p w = true /\ k rest = Some x.
Proof.
  induction s as [|c s IH]; simpl.
  - intros H. now exists [], [].
  - destruct (p c) eqn:Ep.
    + destruct (greedy p s k) as [y|] eqn:Eg.
      * intros [= ->]. destruct (IH eq_refl) as (w & rest & -> & Hw & Hk).
        exists (c :: w), rest. simpl. now rewrite Ep, Hw.
      * intros H. now exists [], (c :: s).
    + intros H. now exists [], (c :: s).
Qed.

Lemma take_prefix (w rest : list ascii) :
  take (length (w ++ rest) - length rest) (w ++ rest) = w.
Proof.
  rewrite length_app, Nat.add_sub. now rewrite take_app_length.
Qed.

Lemma exec_sound {R : Type} (r : re) :
  forall (s : list ascii) (caps : list (list ascii))
         (k : list ascii -> list (list ascii) -> option R) (x : R),
    exec r s caps k = Some x ->
    exists w rest cs,
      s = w ++ rest /\ denotes r w rest cs /\ k rest (caps ++ cs) = Some x.
Proof.
  induction r as [l|c|c|c|r IH|r1 IH1 r2 IH2|]; intros s caps k x; simpl.
  - destruct (strip l s) as [s'|] eqn:E; [|discriminate].
    intros H. apply strip_sound in E. exists l, s', [].
    now rewrite !app_nil_r.
  - destruct s as [|a s]; [discriminate|].
    destruct (mem c a) eqn:Ea; [|discriminate].
    intros H. apply greedy_sound in H as (w & rest & -> & Hw & Hk).
    exists (a :: w), rest, []. rewrite !app_nil_r. simpl. rewrite Ea, Hw.
    repeat split; auto.
  - intros H. apply greedy_sound in H as (w & rest & -> & Hw & Hk).
    exists w, rest, []. now rewrite !app_nil_r.
  - destruct s as [|a s].
    + intros H. exists [], [], []. rewrite !app_nil_r. simpl. tauto.
    + destruct (mem c a) eqn:Ea.
      * destruct (k s caps) as [y|] eqn:Ek.
        -- intros [= ->]. exists [a], s, []. rewrite !app_nil_r. simpl.
           repeat split; auto. right. now exists a.
        -- intros H. exists [], (a :: s), []. rewrite !app_nil_r. simpl. tauto.
      * intros H. exists [], (a :: s), []. rewrite !app_nil_r. simpl. tauto.
  - intros H. apply IH in H as (w & rest & cs & -> & Hd & Hk).
    rewrite take_prefix in Hk. exists w, rest, (cs ++ [w]).
    rewrite app_assoc. repeat split; auto. now exists cs.
  - intros H. apply IH1 in H as (w1 & rest1 & cs1 & -> & Hd1 & Hk1).
    apply IH2 in Hk1 as (w2 & rest & cs2 & -> & Hd2 & Hk).
    exists (w1 ++ w2), rest, (cs1 ++ cs2).
    rewrite <- !app_assoc. rewrite <- app_assoc in Hk. repeat split; auto.
    now exists w1, w2, cs1, cs2.
  - destruct s; [|discriminate]. intros H. exists [], [], [].
    rewrite !app_nil_r. simpl. tauto.
Qed.

Lemma search_here (r : re) (s : list ascii) (m : list (list ascii)) :
  exec r s [] (fun t caps => Some (take (length s - length t) s :: caps)) = Some m ->
  exists w rest cs, s = w ++ rest /\ denotes r w rest cs /\ m = w :: cs.
Proof.
  intros H. apply exec_sound in H as (w & rest & cs & Hs & Hd & Hk).
  subst s. rewrite take_prefix in Hk. simpl in Hk. injection Hk as <-.
  now exists w, rest, cs.
Qed.

Lemma search_sound (r : re) (s : list ascii) (m : list (list ascii)) :
  search r s = Some m ->
  exists pre w rest cs, s = pre ++ w ++ rest /\ denotes r w rest cs /\ m = w :: cs.
Proof.
  induction s as [|c s IH]; cbn [search].
  - destruct (exec r [] [] _) as [y|] eqn:E; [|discriminate].
    intros [= ->]. apply search_here in E as (w & rest & cs & Hs & Hd & ->).
    now exists [], w, rest, cs.
  - destruct (exec r (c :: s) [] _) as [y|] eqn:E.
    + intros [= ->]. apply search_here in E as (w & rest & cs & Hs & Hd & ->).
      now exists [], w, rest, cs.
    + intros H. destruct (IH H) as (pre & w & rest & cs & -> & Hd & ->).
      now exists (c :: pre), w, rest, cs.
Qed.

Lemma chars_text (l : list ascii) : chars (text l) = l.
Proof. apply list_ascii_of_string_of_list_ascii. Qed.

Lemma text_chars (s : string) : text (chars s) = s.
Proof. apply string_of_list_ascii_of_string. Qed.

Lemma chars_app (a b : string) : chars (a +:+ b) = chars a ++ chars b.
Proof. induction a as [|c a IH]; simpl; [reflexivity|]. unfold chars in *. simpl. now rewrite IH. Qed.

Lemma js_match_sound (r : re) (s : string) (m : list string) :
  js_match r s = Some m ->
  exists pre w rest cs,
    chars s = pre ++ w ++ rest /\ denotes r w rest cs /\ m = text w :: map text cs.
Proof.
  unfold js_match. destruct (search r (chars s)) as [m'|] eqn:E; [|discriminate].
  simpl. intros [= <-]. apply search_sound in E as (pre & w & rest & cs & ? & ? & ->).
  now exists pre, w, rest, cs.
Qed.


(** ** The matcher is complete for the denotation *)

Lemma strip_complete (l rest : list ascii) : strip l (l ++ rest) = Some rest.
Proof.
  induction l as [|x l IH]; simpl; [reflexivity|].
  assert (ascii_eqb x x = true) as -> by now apply ascii_eqb_eq. exact IH.
Qed.

Lemma greedy_complete {R : Type} (p : ascii -> bool) (w rest : list ascii)
    (k : list ascii -> option R) :
  forallb p w = true -> is_Some (k rest) -> is_Some (greedy p (w ++ rest) k).
Proof.
  intros Hw Hk. induction w as [|a w IH]; simpl in *.
  - destruct rest as [|c s]; simpl; [exact Hk|].
    destruct (p c); [|exact Hk].
    destruct (greedy p s k); [eauto|exact Hk].
  - apply andb_true_iff in Hw as [-> Hw].
    destruct (IH Hw) as [y ->]. eauto.
Qed.

Lemma exec_complete {R : Type} (r : re) :
  forall (w rest : list ascii) (cs caps : list (list ascii))
         (k : list ascii -> list (list ascii) -> option R),
    denotes r w rest cs -> is_Some (k rest (caps ++ cs)) ->
    is_Some (exec r (w ++ rest) caps k).
Proof.
  induction r as [l|c|c|c|r IH|r1 IH1 r2 IH2|]; intros w rest cs caps k Hd Hk;
    simpl in Hd; simpl exec.
  - destruct Hd as [-> ->]. rewrite strip_complete. now rewrite app_nil_r in Hk.
  - destruct Hd as (Hne & Hw & ->). rewrite app_nil_r in Hk.
    destruct w as [|a w]; [congruence|]. simpl in *.
    apply andb_true_iff in Hw as [-> Hw].
    now apply (greedy_complete (mem c) w rest (fun t => k t caps)).
  - destruct Hd as (Hw & ->). rewrite app_nil_r in Hk.
    now apply (greedy_complete (mem c) w rest (fun t => k t caps)).
  - destruct Hd as ([->|(a & -> & Ha)] & ->); rewrite app_nil_r in Hk; simpl.
    + destruct rest as [|a s]; [exact Hk|].
      destruct (mem c a); [|exact Hk].
      destruct (k s caps); [eauto|exact Hk].
    + rewrite Ha. destruct Hk as [y ->]. eauto.
  - destruct Hd as (cs1 & Hd & ->).
    apply (IH w rest cs1 caps); [exact Hd|].
    rewrite take_prefix. now rewrite <- app_assoc.
  - destruct Hd as (w1 & w2 & cs1 & cs2 & -> & -> & Hd1 & Hd2).
    rewrite <- app_assoc. apply (IH1 w1 (w2 ++ rest) cs1 caps); [exact Hd1|].
    apply (IH2 w2 rest cs2 (caps ++ cs1)); [exact Hd2|]. now rewrite <- app_assoc.
  - destruct Hd as (-> & -> & ->). simpl. now rewrite app_nil_r in Hk.
Qed.

Lemma search_complete (r : re) (pre w rest : list ascii) (cs : list (list ascii)) :
  denotes r w rest cs -> is_Some (search r (pre ++ w ++ rest)).
Proof.
  intros Hd.
  assert (forall s, s = w ++ rest -> is_Some (search r s)) as Here.
  { intros s ->.
    pose proof (exec_complete r w rest cs []
                  (fun t caps => Some (take (length (w ++ rest) - length t) (w ++ rest) :: caps))
                  Hd (ltac:(eauto))) as [y Hy].
    destruct (w ++ rest) eqn:E; cbn [search]; rewrite Hy; eauto. }
  induction pre as [|c pre IH]; [now apply Here|].
  change ((c :: pre) ++ w ++ rest) with (c :: (pre ++ w ++ rest)). cbn [search].
  destruct (exec r (c :: pre ++ w ++ rest) [] _); [eauto|exact IH].
Qed.

(** [s.match(r)] is not [null] exactly when the pattern denotes some
    part of [s]. *)
Lemma js_match_denotes (r : re) (s : string) :
  js_match r s <> None <->
  exists pre w rest cs, chars s = pre ++ w ++ rest /\ denotes r w rest cs.
Proof.
  split.
  - destruct (js_match r s) as [m|] eqn:E; [|congruence]. intros _.
    apply js_match_sound in E as (pre & w & rest & cs & ? & ? & _).
    now exists pre, w, rest, cs.
  - intros (pre & w & rest & cs & Hs & Hd). unfold js_match. rewrite Hs.
    destruct (search_complete r pre w rest cs Hd) as [m ->]. discriminate.
Qed.

(** ** The captures of the extraction pattern *)

Ltac break :=
  repeat match goal with
         | H : _ /\ _ |- _ => destruct H
         | H : exists _, _ |- _ => destruct H
         end.

Lemma none_of_spec (cs : list ascii) (c : ascii) :
  none_of cs c = true -> ~ In c cs.
Proof.
  induction cs as [|x cs IH]; simpl; [tauto|].
  rewrite andb_true_iff, negb_true_iff. intros [Hx Hcs] [->|Hin].
  - assert (ascii_eqb c c = true) by now apply ascii_eqb_eq. congruence.
  - now apply IH.
Qed.

Lemma forallb_In (p : ascii -> bool) (l : list ascii) (c : ascii) :
  forallb p l = true -> In c l -> p c = true.
Proof. rewrite forallb_forall. auto. Qed.

Lemma text_nonempty (l : list ascii) : l <> [] -> text l <> "".
Proof. destruct l; [congruence|]. discriminate. Qed.

Lemma folder_name_captures (url : string) (m : list string) :
  js_match folder_name_re url = Some m ->
  exists whole folder name,
    m = [whole; folder; name] /\ single_segment folder /\ decimal name.
Proof.
  intros H. apply js_match_sound in H as (pre & w & rest & cs & Hs & Hd & ->).
  simpl in Hd. break. subst. simpl.
  do 3 eexists. split; [reflexivity|].
  unfold single_segment, decimal. rewrite !chars_text.
  repeat split; try (apply text_nonempty; assumption).
  - intros ->. eapply none_of_spec; [eapply forallb_In; eassumption|]. simpl. auto.
  - intros ->. eapply none_of_spec; [eapply forallb_In; eassumption|]. simpl. auto.
  - intros c Hc. eapply forallb_In; eassumption.
Qed.

(** ** Paths of assets *)

Lemma split_on_free (sep : ascii) (s : list ascii) :
  (forall c, In c s -> c <> sep) -> split_on sep s = [s].
Proof.
  induction s as [|c s IH]; intros H; simpl; [reflexivity|].
  destruct (ascii_eqb c sep) eqn:E.
  - apply ascii_eqb_eq in E. exfalso. apply (H c); simpl; auto.
  - rewrite IH; [reflexivity|]. intros ? ?. apply H. simpl. auto.
Qed.

Lemma split_on_app (sep : ascii) (f t : list ascii) :
  (forall c, In c f -> c <> sep) ->
  split_on sep (f ++ sep :: t) = f :: split_on sep t.
Proof.
  induction f as [|c f IH]; intros H; simpl.
  - assert (ascii_eqb sep sep = true) as -> by now apply ascii_eqb_eq. reflexivity.
  - destruct (ascii_eqb c sep) eqn:E.
    + apply ascii_eqb_eq in E. exfalso. apply (H c); simpl; auto.
    + rewrite IH; [reflexivity|]. intros ? ?. apply H. simpl. auto.
Qed.

Lemma digit_not (c : ascii) : is_digit c = true -> c <> "/"%char /\ c <> "."%char.
Proof. split; intros ->; vm_compute in H; discriminate. Qed.

Lemma resolve_two_levels (folder name : string) :
  single_segment folder -> decimal name ->
  folder <> "." -> folder <> ".." ->
  resolve (asset_relative folder name) = Some [folder; name +:+ ".jpg"].
Proof.
  intros [Hf Hfc] [Hn Hnc] Hdot Hdots.
  unfold resolve, asset_relative, js_split.
  change (chars "/") with ["/"%char].
  rewrite !chars_app. change (chars "/") with ["/"%char]. simpl app.
  rewrite split_on_app by (intros c Hc; apply (Hfc c Hc)).
  rewrite split_on_free.
  2:{ intros c [Hc|Hc]%in_app_iff.
      - apply (digit_not c (Hnc c Hc)).
      - simpl in Hc. intuition (subst; discriminate). }
  simpl map. change ["."%char; "j"%char; "p"%char; "g"%char] with (chars ".jpg").
  rewrite text_chars, <- chars_app, text_chars.
  cbn [resolve_from].
  apply String.eqb_neq in Hf, Hdot, Hdots. rewrite Hf, Hdot, Hdots. simpl.
  destruct name as [|c name]; [congruence|].
  assert (c <> "."%char) as Hc by (apply digit_not, Hnc; simpl; auto).
  assert (((String c name +:+ ".jpg") =? ".")%string = false) as ->.
  { apply String.eqb_neq. intros Heq. cbn in Heq. injection Heq as Hc' _.
    contradiction. }
  assert (((String c name +:+ ".jpg") =? "..")%string = false) as ->.
  { apply String.eqb_neq. intros Heq. cbn in Heq. injection Heq as Hc' _.
    contradiction. }
  reflexivity.
Qed.


(** ** Runs of the reworked pipeline *)

Lemma tasks_for_le (u : string) (q : list task) :
  NoDup (task_url <$> q) -> tasks_for u q <= 1.
Proof.
  unfold tasks_for. induction q as [|t q IH]; [simpl; lia|].
  rewrite fmap_cons, NoDup_cons. intros [Hnot Hnd].
  rewrite filter_cons. destruct (decide (task_url t = u)) as [<-|Hne].
  - simpl. assert (filter (fun t' => task_url t' = task_url t) q = []) as ->; [|simpl; lia].
    destruct (filter _ q) as [|t' l] eqn:E; [reflexivity|].
    exfalso. apply Hnot.
    assert (t' ∈ filter (fun t0 => task_url t0 = task_url t) q) as Hin
      by (rewrite E; apply elem_of_cons; auto).
    apply list_elem_of_filter in Hin as [<- Hin].
    now apply list_elem_of_fmap_2.
  - now apply IH.
Qed.

Lemma tasks_for_ge (u : string) (q : list task) :
  u ∈ task_url <$> q -> 1 <= tasks_for u q.
Proof.
  unfold tasks_for. intros (t & -> & Hin)%list_elem_of_fmap.
  assert (t ∈ filter (fun t' => task_url t' = task_url t) q) as Hf
    by now apply list_elem_of_filter.
  destruct (filter _ q); [inversion Hf | simpl; lia].
Qed.

Lemma insert_same_url (q : list task) (i attempts : nat) (p : phase) (t : task) :
  q !! i = Some t ->
  task_url <$> <[i:=task_with attempts p t]> q = task_url <$> q.
Proof.
  intros H. rewrite list_fmap_insert. apply list_insert_id.
  rewrite list_lookup_fmap, H. reflexivity.
Qed.

Lemma queue_inv_update (dest : string) (q : list task) (seen : string -> Prop)
    (i attempts : nat) (p : phase) (t : task) :
  q !! i = Some t -> queue_inv dest q seen ->
  queue_inv dest (<[i:=task_with attempts p t]> q) seen.
Proof.
  intros Hi [H1 H2 H3 H4].
  assert (t ∈ q) as Hin by (eapply list_elem_of_lookup_2; eauto).
  split.
  - now rewrite insert_same_url.
  - apply Forall_insert; [assumption|]. simpl.
    now apply (proj1 (Forall_forall _ _) H2).
  - apply Forall_insert; [assumption|].
    apply (proj1 (Forall_forall _ _) H3) in Hin. exact Hin.
  - intros u Hu Hm. rewrite insert_same_url by assumption. now apply H4.
Qed.

Lemma queue_inv_skip (dest : string) (q : list task) (seen seen' : string -> Prop)
    (u : string) :
  (forall v, seen' v <-> v = u \/ seen v) ->
  js_match folder_name_re u = None ->
  queue_inv dest q seen -> queue_inv dest q seen'.
Proof.
  intros Hs Hm [H1 H2 H3 H4]. split; auto.
  - eapply Forall_impl; [exact H2|]. simpl. intros t Ht. apply Hs. auto.
  - intros v [->|Hv]%Hs Hv'.
    + rewrite Hm in Hv'. now destruct Hv'.
    + now apply H4.
Qed.

Lemma queue_inv_push (dest : string) (q : list task) (seen seen' : string -> Prop)
    (u : string) (m : list string) :
  (forall v, seen' v <-> v = u \/ seen v) ->
  ~ seen u ->
  js_match folder_name_re u = Some m ->
  queue_inv dest q seen ->
  queue_inv dest (q ++ [new_task u (at_index m 1) (at_index m 2) dest]) seen'.
Proof.
  intros Hs Hfresh Hm [H1 H2 H3 H4].
  assert (u ∉ task_url <$> q) as Hnot.
  { intros (t & Hu & Ht)%list_elem_of_fmap. apply Hfresh. rewrite Hu.
    now apply (proj1 (Forall_forall _ _) H2). }
  split.
  - rewrite fmap_app. apply NoDup_app. repeat split; auto.
    + intros x Hx ->%list_elem_of_singleton. contradiction.
    + apply NoDup_singleton.
  - apply Forall_app. split.
    + eapply Forall_impl; [exact H2|]. simpl. intros t Ht. apply Hs. auto.
    + apply Forall_singleton. simpl. apply Hs. auto.
  - apply Forall_app. split; [assumption|]. apply Forall_singleton.
    exists m. simpl. auto.
  - intros v [->|Hv]%Hs Hv'; rewrite fmap_app; apply elem_of_app.
    + right. simpl. apply list_elem_of_singleton. reflexivity.
    + left. now apply H4.
Qed.

Lemma revised_discover_inv (dest : string) (r : response) (st : Revised.pipeline) :
  revised_inv dest st -> revised_inv dest (Revised.discover dest r st).
Proof.
  unfold revised_inv, Revised.discover. intros H.
  destruct (bool_decide (is_Some (js_match upload_asset_re (resp_url r))));
    simpl; [|exact H].
  case_bool_decide as Hin; simpl; [exact H|].
  destruct (js_match folder_name_re (resp_url r)) as [m|] eqn:Em; simpl.
  - apply (queue_inv_push dest _ (fun u => u ∈ Revised.processedUrls st) _
             (resp_url r) m); [intros v; set_solver | exact Hin | exact Em | exact H].
  - apply (queue_inv_skip dest _ (fun u => u ∈ Revised.processedUrls st) _
             (resp_url r)); [intros v; set_solver | exact Em | exact H].
Qed.

Lemma revised_step_inv (url dest : string) (a : action) (st : Revised.pipeline) :
  revised_inv dest st -> revised_inv dest (Revised.step url dest a st).
Proof.
  intros H. destruct a as [r|i|i a|i]; simpl.
  - unfold Revised.on_response.
    destruct ((resp_url r =? url)%string && resp_ok r); [exact H|].
    now apply revised_discover_inv.
  - destruct (Revised.awaiting st !! i) as [r|]; [|exact H].
    unfold Revised.on_text. destruct (resp_text r) as [body|e]; [|exact H].
    destruct (js_match images_re body) as [m|]; [|exact H].
    now apply revised_discover_inv.
  - destruct (Revised.downloadQueue st !! i) as [t|] eqn:Ei; [|exact H].
    destruct (task_phase t); try exact H.
    destruct (Revised.turn_of _ _ _ _ _ _ _ _); now apply queue_inv_update.
  - destruct (Revised.downloadQueue st !! i) as [t|] eqn:Ei; [|exact H].
    destruct (task_phase t); try exact H. now apply queue_inv_update.
Qed.

Lemma revised_run_inv (url dest : string) (acts : list action) (st : Revised.pipeline) :
  revised_inv dest st -> revised_inv dest (Revised.run url dest acts st).
Proof.
  revert st. induction acts as [|a acts IH]; intros st H; simpl; [exact H|].
  apply IH. now apply revised_step_inv.
Qed.

Lemma revised_start_inv (tty : bool) (dest : string) : revised_inv dest (Revised.start_state tty).
Proof.
  split; simpl.
  - apply NoDup_nil_2.
  - apply Forall_nil_2.
  - apply Forall_nil_2.
  - intros u Hu. set_solver.
Qed.

(** ** Runs of [src/index.ts] *)

Lemma index_discover_inv (dest : string) (r : response) (st : Index.pipeline) :
  index_inv dest st -> index_inv dest (Index.discover dest r st).
Proof.
  unfold index_inv, Index.discover. intros H.
  destruct (resp_ok r); simpl; [|exact H].
  destruct (bool_decide (is_Some (js_match upload_asset_re (resp_url r))));
    simpl; [|exact H].
  case_bool_decide as Hin; simpl; [exact H|].
  destruct (js_match folder_name_re (resp_url r)) as [m|] eqn:Em; simpl.
  - apply (queue_inv_push dest _ (fun u => u ∈ Index.urlPassed st) _
             (resp_url r) m); [intros v | exact Hin | exact Em | exact H].
    rewrite elem_of_app, list_elem_of_singleton. tauto.
  - apply (queue_inv_skip dest _ (fun u => u ∈ Index.urlPassed st) _
             (resp_url r)); [intros v | exact Em | exact H].
    rewrite elem_of_app, list_elem_of_singleton. tauto.
Qed.

Lemma index_step_inv (url dest : string) (a : action) (st : Index.pipeline) :
  index_inv dest st -> index_inv dest (Index.step url dest a st).
Proof.
  intros H. destruct a as [r|i|i a|i]; simpl; [| | |exact H].
  - unfold Index.on_response.
    destruct (resp_ok r && (resp_url r =? Index.primary url)%string); [exact H|].
    now apply index_discover_inv.
  - destruct (Index.awaiting st !! i) as [r|]; [|exact H].
    unfold Index.on_text. destruct (resp_text r) as [body|e]; [|exact H].
    destruct (js_match images_re body) as [m|]; [|exact H].
    now apply index_discover_inv.
  - destruct (Index.downloadPromises st !! i) as [t|] eqn:Ei; [|exact H].
    destruct (task_phase t); try exact H.
    destruct (Index.turn_of _ _ _ _ _ _ _); [now apply queue_inv_update | exact H].
Qed.

Lemma index_run_inv (url dest : string) (acts : list action) (st : Index.pipeline) :
  index_inv dest st -> index_inv dest (Index.run url dest acts st).
Proof.
  revert st. induction acts as [|a acts IH]; intros st H; simpl; [exact H|].
  apply IH. now apply index_step_inv.
Qed.

Lemma index_start_inv (tty : bool) (dest : string) : index_inv dest (Index.start_state tty).
Proof.
  split; simpl.
  - apply NoDup_nil_2.
  - apply Forall_nil_2.
  - apply Forall_nil_2.
  - intros u Hu. set_solver.
Qed.


(** ** Discovery: one download per URL at most *)

Lemma run_app_revised (url dest : string) (l1 l2 : list action) (st : Revised.pipeline) :
  Revised.run url dest (l1 ++ l2) st = Revised.run url dest l2 (Revised.run url dest l1 st).
Proof. unfold Revised.run. apply fold_left_app. Qed.

Lemma revised_discover_mono (dest : string) (r : response) (st : Revised.pipeline) :
  Revised.processedUrls st ⊆ Revised.processedUrls (Revised.discover dest r st).
Proof.
  unfold Revised.discover.
  destruct (_ && _); [|reflexivity].
  destruct (js_match folder_name_re (resp_url r)); simpl; set_solver.
Qed.

Lemma revised_step_mono (url dest : string) (a : action) (st : Revised.pipeline) :
  Revised.processedUrls st ⊆ Revised.processedUrls (Revised.step url dest a st).
Proof.
  destruct a as [r|i|i a|i]; simpl.
  - unfold Revised.on_response. destruct (_ && _); [reflexivity|].
    apply revised_discover_mono.
  - destruct (Revised.awaiting st !! i) as [r|]; [|reflexivity].
    unfold Revised.on_text. destruct (resp_text r) as [body|e]; [|reflexivity].
    destruct (js_match images_re body) as [m|]; [|reflexivity].
    etransitivity; [|apply revised_discover_mono]. reflexivity.
  - destruct (Revised.downloadQueue st !! i) as [t|]; [|reflexivity].
    destruct (task_phase t); try reflexivity.
    destruct (Revised.turn_of _ _ _ _ _ _ _ _); reflexivity.
  - destruct (Revised.downloadQueue st !! i) as [t|]; [|reflexivity].
    destruct (task_phase t); reflexivity.
Qed.

Lemma revised_run_mono (url dest : string) (acts : list action) (st : Revised.pipeline) :
  Revised.processedUrls st ⊆ Revised.processedUrls (Revised.run url dest acts st).
Proof.
  revert st. induction acts as [|a acts IH]; intros st; simpl; [reflexivity|].
  etransitivity; [apply (revised_step_mono url dest a)|apply IH].
Qed.

Lemma revised_deliver_seen (url dest : string) (r : response) (st : Revised.pipeline) :
  resp_url r <> url ->
  js_match upload_asset_re (resp_url r) <> None ->
  resp_url r ∈ Revised.processedUrls (Revised.step url dest (Deliver r) st).
Proof.
  intros Hne Hm. simpl. unfold Revised.on_response.
  apply String.eqb_neq in Hne. rewrite Hne. simpl.
  unfold Revised.discover.
  rewrite bool_decide_eq_true_2
    by (destruct (js_match upload_asset_re (resp_url r)); [eauto|congruence]).
  simpl. case_bool_decide as Hin; simpl; [assumption|].
  destruct (js_match folder_name_re (resp_url r)); simpl; set_solver.
Qed.

(** C1, as amended.  Whatever the order in which response events are
    delivered, suspended handlers resumed and downloads advanced, the
    reworked handler creates at most one download per URL: the test on
    the set of processed URLs and the insertion are one step of the
    handler.  It creates exactly one for a URL other than the primary
    one that matches both the filter and the extraction pattern, once an
    event carrying it has been delivered. *)
Theorem revised_one_download_per_url (tty : bool)
    (url dest : string) (acts : list action) (u : string) :
  let q := Revised.downloadQueue (Revised.run url dest acts (Revised.start_state tty)) in
  tasks_for u q <= 1 /\
  (forall r, In (Deliver r) acts -> resp_url r = u -> u <> url ->
             js_match upload_asset_re u <> None ->
             js_match folder_name_re u <> None ->
             tasks_for u q = 1).
Proof.
  intros q.
  pose proof (revised_run_inv url dest acts _ (revised_start_inv tty dest)) as [H1 H2 H3 H4].
  fold q in H1, H2, H3, H4.
  assert (tasks_for u q <= 1) as Hle by now apply tasks_for_le.
  split; [exact Hle|].
  intros r Hin Hu Hne Hf He.
  apply in_split in Hin as (pre & post & ->).
  assert (u ∈ Revised.processedUrls
            (Revised.run url dest (pre ++ Deliver r :: post) (Revised.start_state tty))) as Hseen.
  { rewrite run_app_revised. simpl. apply revised_run_mono.
    rewrite <- Hu. apply revised_deliver_seen; now rewrite Hu. }
  assert (1 <= tasks_for u q); [|lia].
  apply tasks_for_ge, H4; [exact Hseen|].
  destruct (js_match folder_name_re u); [eauto|congruence].
Qed.


Lemma run_app_index (url dest : string) (l1 l2 : list action) (st : Index.pipeline) :
  Index.run url dest (l1 ++ l2) st = Index.run url dest l2 (Index.run url dest l1 st).
Proof. unfold Index.run. apply fold_left_app. Qed.

Lemma index_discover_mono (dest : string) (r : response) (st : Index.pipeline) (u : string) :
  u ∈ Index.urlPassed st -> u ∈ Index.urlPassed (Index.discover dest r st).
Proof.
  unfold Index.discover. intros H.
  destruct (_ && _); [|exact H].
  destruct (js_match folder_name_re (resp_url r)); simpl; apply elem_of_app; auto.
Qed.

Lemma index_step_mono (url dest : string) (a : action) (st : Index.pipeline) (u : string) :
  u ∈ Index.urlPassed st -> u ∈ Index.urlPassed (Index.step url dest a st).
Proof.
  intros H. destruct a as [r|i|i a|i]; simpl; [| | |exact H].
  - unfold Index.on_response. destruct (_ && _); [exact H|].
    now apply index_discover_mono.
  - destruct (Index.awaiting st !! i) as [r|]; [|exact H].
    unfold Index.on_text. destruct (resp_text r) as [body|e]; [|exact H].
    destruct (js_match images_re body) as [m|]; [|exact H].
    now apply index_discover_mono.
  - destruct (Index.downloadPromises st !! i) as [t|]; [|exact H].
    destruct (task_phase t); try exact H.
    destruct (Index.turn_of _ _ _ _ _ _ _); exact H.
Qed.

Lemma index_run_mono (url dest : string) (acts : list action) (st : Index.pipeline) (u : string) :
  u ∈ Index.urlPassed st -> u ∈ Index.urlPassed (Index.run url dest acts st).
Proof.
  revert st. induction acts as [|a acts IH]; intros st H; simpl; [exact H|].
  apply IH. now apply index_step_mono.
Qed.

Lemma index_deliver_seen (url dest : string) (r : response) (st : Index.pipeline) :
  resp_ok r = true ->
  resp_url r <> Index.primary url ->
  js_match upload_asset_re (resp_url r) <> None ->
  resp_url r ∈ Index.urlPassed (Index.step url dest (Deliver r) st).
Proof.
  intros Hok Hne Hm. simpl. unfold Index.on_response.
  apply String.eqb_neq in Hne. rewrite Hne, Hok. simpl.
  unfold Index.discover. rewrite Hok.
  rewrite bool_decide_eq_true_2
    by (destruct (js_match upload_asset_re (resp_url r)); [eauto|congruence]).
  simpl. case_bool_decide as Hin; simpl; [assumption|].
  destruct (js_match folder_name_re (resp_url r)); simpl;
    apply elem_of_app; right; apply list_elem_of_singleton; reflexivity.
Qed.

(** The same for the handler of [src/index.ts], which looks at successful
    responses only. *)
Lemma index_one_download_per_url (tty : bool)
    (url dest : string) (acts : list action) (u : string) :
  let q := Index.downloadPromises (Index.run url dest acts (Index.start_state tty)) in
  tasks_for u q <= 1 /\
  (forall r, In (Deliver r) acts -> resp_url r = u -> resp_ok r = true ->
             u <> Index.primary url ->
             js_match upload_asset_re u <> None ->
             js_match folder_name_re u <> None ->
             tasks_for u q = 1).
Proof.
  intros q.
  pose proof (index_run_inv url dest acts _ (index_start_inv tty dest)) as [H1 H2 H3 H4].
  fold q in H1, H2, H3, H4.
  assert (tasks_for u q <= 1) as Hle by now apply tasks_for_le.
  split; [exact Hle|].
  intros r Hin Hu Hok Hne Hf He.
  apply in_split in Hin as (pre & post & ->).
  assert (u ∈ Index.urlPassed
            (Index.run url dest (pre ++ Deliver r :: post) (Index.start_state tty))) as Hseen.
  { rewrite run_app_index. simpl. apply index_run_mono.
    rewrite <- Hu. apply index_deliver_seen; now rewrite ?Hu. }
  assert (1 <= tasks_for u q); [|lia].
  apply tasks_for_ge, H4; [exact Hseen|].
  destruct (js_match folder_name_re u); [eauto|congruence].
Qed.

Lemma revised_one_download_per_url_witness :
  tasks_for onepiece_001
    (Revised.downloadQueue
       (Revised.run chapter "./dl"
          [Deliver (ok_response onepiece_001); Deliver (ok_response onepiece_001)]
          (Revised.start_state true))) = 1.
Proof.
  apply (proj2 (revised_one_download_per_url true chapter "./dl"
                  [Deliver (ok_response onepiece_001); Deliver (ok_response onepiece_001)]
                  onepiece_001))
    with (r := ok_response onepiece_001).
  - simpl. auto.
  - reflexivity.
  - discriminate.
  - vm_compute. discriminate.
  - vm_compute. discriminate.
Defined.

(** C1 as stated fails: this URL passes the filter, and however many
    events carry it no download is created for it, by either handler. *)
Lemma one_download_per_url_counterexample :
  js_match upload_asset_re one_piece_1 <> None /\
  tasks_for one_piece_1
    (Revised.downloadQueue
       (Revised.run chapter "./dl"
          [Deliver (ok_response one_piece_1); Deliver (ok_response one_piece_1)]
          (Revised.start_state true))) = 0 /\
  tasks_for one_piece_1
    (Index.downloadPromises
       (Index.run chapter "./dl"
          [Deliver (ok_response one_piece_1); Deliver (ok_response one_piece_1)]
          (Index.start_state true))) = 0.
Proof. vm_compute. repeat split; [discriminate|..]; reflexivity. Qed.


(** ** Downloads retry until they succeed *)

Lemma succeeds_true (prefix : string) (a : attempt) :
  succeeds a = true ->
  exists status body,
    att_fetch a = GetResponds status (Ok body) /\ ok_status status = true /\
    att_disk a = None /\ try_fetch (http_status prefix) a = Ok body.
Proof.
  unfold succeeds, try_fetch.
  destruct (att_fetch a) as [e|status [body|e]]; try discriminate.
  destruct (ok_status status) eqn:Eok; simpl; [|discriminate].
  destruct (att_disk a); [discriminate|]. intros _. now exists status, body.
Qed.

Lemma succeeds_false (prefix : string) (a : attempt) :
  succeeds a = false -> exists e, try_fetch (http_status prefix) a = Throws e.
Proof.
  unfold succeeds, try_fetch.
  destruct (att_fetch a) as [e|status [body|e]]; eauto;
    destruct (ok_status status); eauto.
  destruct (att_disk a); [eauto|discriminate].
Qed.

Lemma first_success_search (env : nat -> attempt) (fuel : nat) :
  all_fail env fuel \/ exists k, k < fuel /\ first_success env k.
Proof.
  induction fuel as [|fuel [IH|(k & Hk & IH)]].
  - left. intros i Hi. lia.
  - destruct (succeeds (env fuel)) eqn:E.
    + right. exists fuel. split; [lia|]. now split.
    + left. intros i Hi. destruct (decide (i = fuel)) as [->|]; [exact E|].
      apply IH. lia.
  - right. exists k. split; [lia|exact IH].
Qed.

Lemma revised_turn_fails (u folder name dest : string) (b : bar) (n : nat)
    (fs : files) (a : attempt) :
  succeeds a = false ->
  exists b', Revised.turn_of u folder name b dest n fs a
             = Again (n + 1) b' [Get u; Delay 10000%N]
             /\ bar_value b' = bar_value b /\ bar_total b' = bar_total b.
Proof.
  intros (e & He)%(succeeds_false "Statut HTTP "). unfold Revised.turn_of. rewrite He.
  eexists. split; [reflexivity|]. unfold bar_update.
  destruct (_ <=? _)%nat; [|destruct (_ =? _)%nat]; destruct (bar_active b); auto.
Qed.

Lemma revised_turn_succeeds (u folder name dest : string) (b : bar) (n : nat)
    (fs : files) (a : attempt) :
  succeeds a = true ->
  exists status body,
    att_fetch a = GetResponds status (Ok body) /\ ok_status status = true /\
    att_disk a = None /\
    Revised.turn_of u folder name b dest n fs a
    = Done (if (0 <? n)%nat then bar_update_value 1 (SucceededAfter u n) b else b)
        (<[asset_path dest folder name:=body]> fs)
        [Get u; WriteFile (asset_path dest folder name) body].
Proof.
  intros (status & body & H1 & H2 & H3 & H4)%(succeeds_true "Statut HTTP ").
  exists status, body. unfold Revised.turn_of. now rewrite H4.
Qed.

Lemma revised_retry_running (env : nat -> attempt) (u folder name dest : string)
    (fs : files) (fuel : nat) :
  forall (n : nat) (b : bar),
    (forall i, i < fuel -> succeeds (env (n + i)) = false) ->
    exists b',
      Revised.downloadWithRetry fuel env n u folder name b dest fs
      = (Running, b', fs, revised_retries u fuel)
      /\ bar_value b' = bar_value b.
Proof.
  induction fuel as [|fuel IH]; intros n b Hfail; simpl.
  - now exists b.
  - destruct (revised_turn_fails u folder name dest b n fs (env n)) as (b1 & -> & Hv & _).
    { rewrite <- (Nat.add_0_r n) at 1. apply Hfail. lia. }
    destruct (IH (n + 1) b1) as (b' & -> & Hv').
    { intros i Hi. replace (n + 1 + i) with (n + S i) by lia. apply Hfail. lia. }
    exists b'. split; [reflexivity|congruence].
Qed.

Lemma revised_retry_returns (env : nat -> attempt) (u folder name dest : string)
    (fs : files) (k : nat) :
  forall (fuel n : nat) (b : bar),
    k < fuel ->
    (forall i, i < k -> succeeds (env (n + i)) = false) ->
    succeeds (env (n + k)) = true ->
    exists status body b',
      att_fetch (env (n + k)) = GetResponds status (Ok body) /\
      ok_status status = true /\ att_disk (env (n + k)) = None /\
      Revised.downloadWithRetry fuel env n u folder name b dest fs
      = (Returned tt, b', <[asset_path dest folder name:=body]> fs,
         revised_retries u k ++ [Get u; WriteFile (asset_path dest folder name) body]).
Proof.
  induction k as [|k IH]; intros fuel n b Hk Hfail Hok.
  - destruct fuel as [|fuel]; [lia|]. simpl. rewrite Nat.add_0_r in *.
    destruct (revised_turn_succeeds u folder name dest b n fs (env n) Hok)
      as (status & body & H1 & H2 & H3 & ->).
    exists status, body. eexists. repeat split; eauto.
  - destruct fuel as [|fuel]; [lia|]. simpl.
    destruct (revised_turn_fails u folder name dest b n fs (env n)) as (b1 & -> & Hv & _).
    { rewrite <- (Nat.add_0_r n) at 1. apply Hfail. lia. }
    destruct (IH fuel (n + 1) b1) as (status & body & b' & H1 & H2 & H3 & ->).
    { lia. }
    { intros i Hi. replace (n + 1 + i) with (n + S i) by lia. apply Hfail. lia. }
    { replace (n + 1 + k) with (n + S k) by lia. exact Hok. }
    replace (n + 1 + k) with (n + S k) in * by lia.
    exists status, body, b'. repeat split; auto.
Qed.

Lemma index_turn_fails (u folder name dest : string) (b : bar) (fs : files) (a : attempt) :
  succeeds a = false ->
  Index.turn_of u folder name b dest fs a
  = Again 0 b [Get u; Err (DownloadFailed u (index_failure a)); Delay 10000%N].
Proof.
  intros (e & He)%(succeeds_false "HTTP status "). unfold Index.turn_of, index_failure.
  now rewrite He.
Qed.

Lemma index_turn_succeeds (u folder name dest : string) (b : bar) (fs : files) (a : attempt) :
  succeeds a = true ->
  exists status body,
    att_fetch a = GetResponds status (Ok body) /\ ok_status status = true /\
    att_disk a = None /\
    Index.turn_of u folder name b dest fs a
    = Done (bar_increment b) (<[asset_path dest folder name:=body]> fs)
        [Get u; WriteFile (asset_path dest folder name) body].
Proof.
  intros (status & body & H1 & H2 & H3 & H4)%(succeeds_true "HTTP status ").
  exists status, body. unfold Index.turn_of. now rewrite H4.
Qed.

Lemma index_retry_running (env : nat -> attempt) (u folder name dest : string)
    (fs : files) (b : bar) (fuel : nat) :
  forall (n : nat),
    (forall i, i < fuel -> succeeds (env (n + i)) = false) ->
    Index.downloadWithRetry fuel env n u folder name b dest fs
    = (Running, b, fs, index_retries env u n fuel).
Proof.
  induction fuel as [|fuel IH]; intros n Hfail; simpl; [reflexivity|].
  rewrite index_turn_fails by (rewrite <- (Nat.add_0_r n) at 1; apply Hfail; lia).
  rewrite IH; [reflexivity|].
  intros i Hi. replace (S n + i) with (n + S i) by lia. apply Hfail. lia.
Qed.

Lemma index_retry_returns (env : nat -> attempt) (u folder name dest : string)
    (fs : files) (b : bar) (k : nat) :
  forall (fuel n : nat),
    k < fuel ->
    (forall i, i < k -> succeeds (env (n + i)) = false) ->
    succeeds (env (n + k)) = true ->
    exists status body,
      att_fetch (env (n + k)) = GetResponds status (Ok body) /\
      ok_status status = true /\ att_disk (env (n + k)) = None /\
      Index.downloadWithRetry fuel env n u folder name b dest fs
      = (Returned tt, bar_increment b, <[asset_path dest folder name:=body]> fs,
         index_retries env u n k ++ [Get u; WriteFile (asset_path dest folder name) body]).
Proof.
  induction k as [|k IH]; intros fuel n Hk Hfail Hok.
  - destruct fuel as [|fuel]; [lia|]. simpl. rewrite Nat.add_0_r in *.
    destruct (index_turn_succeeds u folder name dest b fs (env n) Hok)
      as (status & body & H1 & H2 & H3 & ->).
    now exists status, body.
  - destruct fuel as [|fuel]; [lia|]. simpl.
    rewrite index_turn_fails by (rewrite <- (Nat.add_0_r n) at 1; apply Hfail; lia).
    destruct (IH fuel (S n)) as (status & body & H1 & H2 & H3 & ->).
    { lia. }
    { intros i Hi. replace (S n + i) with (n + S i) by lia. apply Hfail. lia. }
    { replace (S n + k) with (n + S k) by lia. exact Hok. }
    replace (S n + k) with (n + S k) in * by lia.
    now exists status, body.
Qed.


(** C2.  [downloadWithRetry], in both variants, never ends on a failure:
    as long as attempts fail it is still running, each failed attempt
    being followed by a delay of 10 seconds and a new request, and
    nothing is written; it returns at the first attempt whose response
    is ok, whose body is read and whose file is written, and only then.
    Its promise is never rejected. *)
Theorem retry_until_success (env : nat -> attempt) (u folder name dest : string)
    (b : bar) (fs : files) (fuel : nat) :
  let path := asset_path dest folder name in
  let rv := Revised.downloadWithRetry fuel env 0 u folder name b dest fs in
  let ix := Index.downloadWithRetry fuel env 0 u folder name b dest fs in
  (all_fail env fuel ->
     rv.1.1.1 = Running /\ rv.1.2 = fs /\ rv.2 = revised_retries u fuel /\
     ix.1.1.1 = Running /\ ix.1.2 = fs /\ ix.2 = index_retries env u 0 fuel) /\
  (forall k, k < fuel -> first_success env k ->
     exists status body,
       att_fetch (env k) = GetResponds status (Ok body) /\
       ok_status status = true /\ att_disk (env k) = None /\
       rv.1.1.1 = Returned tt /\ rv.1.2 = <[path:=body]> fs /\
       rv.2 = revised_retries u k ++ [Get u; WriteFile path body] /\
       ix.1.1.1 = Returned tt /\ ix.1.2 = <[path:=body]> fs /\
       ix.2 = index_retries env u 0 k ++ [Get u; WriteFile path body]) /\
  (rv.1.1.1 = Returned tt \/ ix.1.1.1 = Returned tt ->
     exists k, k < fuel /\ first_success env k) /\
  (forall e, rv.1.1.1 <> Rejected e /\ ix.1.1.1 <> Rejected e) /\
  (forall c, rv.1.1.1 <> Exited c /\ ix.1.1.1 <> Exited c).
Proof.
  intros path rv ix.
  assert (all_fail env fuel ->
          rv.1.1.1 = Running /\ rv.1.2 = fs /\ rv.2 = revised_retries u fuel /\
          ix.1.1.1 = Running /\ ix.1.2 = fs /\ ix.2 = index_retries env u 0 fuel) as Hrun.
  { intros Hfail. unfold rv, ix.
    destruct (revised_retry_running env u folder name dest fs fuel 0 b Hfail)
      as (b' & -> & _).
    rewrite (index_retry_running env u folder name dest fs b fuel 0 Hfail).
    simpl. auto 10. }
  assert (forall k, k < fuel -> first_success env k ->
     exists status body,
       att_fetch (env k) = GetResponds status (Ok body) /\
       ok_status status = true /\ att_disk (env k) = None /\
       rv.1.1.1 = Returned tt /\ rv.1.2 = <[path:=body]> fs /\
       rv.2 = revised_retries u k ++ [Get u; WriteFile path body] /\
       ix.1.1.1 = Returned tt /\ ix.1.2 = <[path:=body]> fs /\
       ix.2 = index_retries env u 0 k ++ [Get u; WriteFile path body]) as Hret.
  { intros k Hk [Hfail Hok]. unfold rv, ix.
    destruct (revised_retry_returns env u folder name dest fs k fuel 0 b Hk Hfail Hok)
      as (status & body & b' & H1 & H2 & H3 & ->).
    destruct (index_retry_returns env u folder name dest fs b k fuel 0 Hk Hfail Hok)
      as (status' & body' & H1' & _ & _ & ->).
    simpl in H1, H1'. rewrite H1 in H1'. injection H1' as <- <-.
    exists status, body. simpl. auto 12. }
  split; [exact Hrun|]. split; [exact Hret|].
  destruct (first_success_search env fuel) as [Hfail|(k & Hk & Hfirst)].
  - destruct (Hrun Hfail) as (R1 & _ & _ & R2 & _). rewrite R1, R2.
    split; [intros [?|?]; discriminate|].
    split; intros ?; split; discriminate.
  - destruct (Hret k Hk Hfirst) as (? & ? & _ & _ & _ & R1 & _ & _ & R2 & _).
    rewrite R1, R2. split; [intros _; now exists k|].
    split; intros ?; split; discriminate.
Qed.

Lemma retry_until_success_witness :
  (Revised.downloadWithRetry 5 flaky 0 onepiece_001 "OnePiece" "001" (new_bar true)
     "./dl" ∅).1.1.1
  = Returned tt /\
  (Index.downloadWithRetry 5 flaky 0 onepiece_001 "OnePiece" "001" (new_bar true) "./dl" ∅).2
  = index_retries flaky onepiece_001 0 2
      ++ [Get onepiece_001; WriteFile "./dl/OnePiece/001.jpg" "JPEG"].
Proof.
  destruct (proj1 (proj2 (retry_until_success flaky onepiece_001 "OnePiece" "001" "./dl"
                            (new_bar true) ∅ 5)) 2)
    as (status & body & H1 & _ & _ & R1 & _ & _ & _ & _ & R2).
  - lia.
  - split; [|reflexivity]. intros i Hi.
    destruct i as [|[|i]]; [reflexivity|reflexivity|lia].
  - injection H1 as <- <-. split; [exact R1|exact R2].
Defined.


(** ** The manifest and the progress bar *)

Lemma revised_discover_bar (dest : string) (r : response) (st : Revised.pipeline) :
  Revised.progressBar (Revised.discover dest r st) = Revised.progressBar st /\
  Revised.totalImages (Revised.discover dest r st) = Revised.totalImages st.
Proof.
  unfold Revised.discover. destruct (_ && _); [|auto].
  destruct (js_match folder_name_re (resp_url r)); simpl; auto.
Qed.

Lemma index_discover_bar (dest : string) (r : response) (st : Index.pipeline) :
  Index.bar1 (Index.discover dest r st) = Index.bar1 st /\
  Index.taille (Index.discover dest r st) = Index.taille st.
Proof.
  unfold Index.discover. destruct (_ && _); [|auto].
  destruct (js_match folder_name_re (resp_url r)); simpl; auto.
Qed.

Lemma revised_manifest_restart (url dest : string)
    (st : Revised.pipeline) (r : response) (body : string) (m : list string) :
  resp_url r = url -> resp_ok r = true -> resp_text r = Ok body ->
  js_match images_re body = Some m ->
  let st' := Revised.run url dest [Deliver r; Resume (length (Revised.awaiting st))] st in
  let n := length (js_split (at_index m 1) ",") in
  Revised.totalImages st' = n /\
  Revised.progressBar st' = bar_start n 0 (Some Initialisation) (Revised.progressBar st).
Proof.
  intros Hu Hok Ht Hm. simpl. unfold Revised.on_response.
  apply String.eqb_eq in Hu. rewrite Hu, Hok. simpl.
  rewrite lookup_app_r, Nat.sub_diag by lia. simpl.
  unfold Revised.on_text. rewrite Ht, Hm.
  match goal with
  | |- context [Revised.discover dest r ?s] =>
      destruct (revised_discover_bar dest r s) as [-> ->]
  end.
  simpl. auto.
Qed.

(** C3, as amended.  In the reworked handler every successful response
    for the primary URL whose body holds the manifest, delivered in any
    state and resumed, sets [totalImages] to the count of that manifest.
    When the stream of the bar is a terminal it also sets the total of
    the bar to that count and puts the completed count back to 0,
    whatever they were, and the bar is active; when the stream is not a
    terminal, [start] returns at once and the bar is as it was. *)
Theorem revised_every_manifest_restarts_progress (url dest : string)
    (st : Revised.pipeline) (r : response) (body : string) (m : list string) :
  resp_url r = url -> resp_ok r = true -> resp_text r = Ok body ->
  js_match images_re body = Some m ->
  let st' := Revised.run url dest [Deliver r; Resume (length (Revised.awaiting st))] st in
  let n := length (js_split (at_index m 1) ",") in
  Revised.totalImages st' = n /\
  (bar_tty (Revised.progressBar st) = true ->
   bar_total (Revised.progressBar st') = n /\
   bar_value (Revised.progressBar st') = 0 /\
   bar_active (Revised.progressBar st') = true) /\
  (bar_tty (Revised.progressBar st) = false ->
   Revised.progressBar st' = Revised.progressBar st).
Proof.
  intros Hu Hok Ht Hm st' n.
  destruct (revised_manifest_restart url dest st r body m Hu Hok Ht Hm) as [H1 H2].
  fold st' in H1, H2. fold n in H1, H2.
  split; [exact H1|]. rewrite H2. unfold bar_start.
  split; intros ->; simpl; auto.
Qed.

Lemma index_manifest_restart (url dest : string)
    (st : Index.pipeline) (r : response) (body : string) (m : list string) :
  resp_url r = Index.primary url -> resp_ok r = true -> resp_text r = Ok body ->
  js_match images_re body = Some m ->
  let st' := Index.run url dest [Deliver r; Resume (length (Index.awaiting st))] st in
  let n := length (js_split (at_index m 1) ",") in
  Index.taille st' = n /\
  Index.bar1 st' = bar_start n 0 None (Index.bar1 st).
Proof.
  intros Hu Hok Ht Hm. simpl. unfold Index.on_response.
  apply String.eqb_eq in Hu. rewrite Hu, Hok. simpl.
  rewrite lookup_app_r, Nat.sub_diag by lia. simpl.
  unfold Index.on_text. rewrite Ht, Hm.
  match goal with
  | |- context [Index.discover dest r ?s] =>
      destruct (index_discover_bar dest r s) as [-> ->]
  end.
  simpl. auto.
Qed.

(** The same for the handler of [src/index.ts], whose bar writes to
    [process.stdout]. *)
Lemma index_every_manifest_restarts_progress (url dest : string)
    (st : Index.pipeline) (r : response) (body : string) (m : list string) :
  resp_url r = Index.primary url -> resp_ok r = true -> resp_text r = Ok body ->
  js_match images_re body = Some m ->
  let st' := Index.run url dest [Deliver r; Resume (length (Index.awaiting st))] st in
  let n := length (js_split (at_index m 1) ",") in
  Index.taille st' = n /\
  (bar_tty (Index.bar1 st) = true ->
   bar_total (Index.bar1 st') = n /\
   bar_value (Index.bar1 st') = 0 /\
   bar_active (Index.bar1 st') = true) /\
  (bar_tty (Index.bar1 st) = false -> Index.bar1 st' = Index.bar1 st).
Proof.
  intros Hu Hok Ht Hm st' n.
  destruct (index_manifest_restart url dest st r body m Hu Hok Ht Hm) as [H1 H2].
  fold st' in H1, H2. fold n in H1, H2.
  split; [exact H1|]. rewrite H2. unfold bar_start.
  split; intros ->; simpl; auto.
Qed.

Lemma revised_every_manifest_restarts_progress_witness :
  let st := Revised.run chapter "./dl"
              [Deliver (primary_response chapter "1,2,3"); Resume 0;
               Deliver (ok_response onepiece_001); Try 0 success; Then 0]
              (Revised.start_state true) in
  let st' := Revised.run chapter "./dl" [Deliver (primary_response chapter "1,2"); Resume 0] st in
  bar_value (Revised.progressBar st) = 1 /\
  Revised.totalImages st' = 2 /\
  bar_total (Revised.progressBar st') = 2 /\
  bar_value (Revised.progressBar st') = 0.
Proof.
  intros st st'. split; [reflexivity|].
  destruct (revised_every_manifest_restarts_progress chapter "./dl" st
              (primary_response chapter "1,2") (manifest_body "1,2")
              [text (quote :: chars "images" ++ [quote]) +:+ ": [1,2]"; "1,2"])
    as (H1 & H2 & _).
  - reflexivity.
  - reflexivity.
  - reflexivity.
  - vm_compute. reflexivity.
  - destruct H2 as (H2 & H3 & _); [reflexivity|].
    split; [exact H1|]. split; [exact H2|exact H3].
Defined.

(** C3 as stated fails.  A second successful response for the primary
    URL sets the total again (3, then 2) and puts the completed count
    back from 1 to 0; and with a manifest of one image and two assets
    downloaded, the completed count, 2, exceeds the total, 1. *)
Lemma progress_total_counterexample :
  let first := [Deliver (primary_response chapter "1,2,3"); Resume 0;
                Deliver (ok_response onepiece_001); Try 0 success; Then 0] in
  let second := [Deliver (primary_response chapter "1,2"); Resume 0] in
  let st1 := Revised.run chapter "./dl" first (Revised.start_state true) in
  let st2 := Revised.run chapter "./dl" second st1 in
  let st3 := Revised.run chapter "./dl"
               [Deliver (primary_response chapter "1"); Resume 0;
                Deliver (ok_response onepiece_001); Deliver (ok_response onepiece_002);
                Try 0 success; Then 0; Try 1 success; Then 1]
               (Revised.start_state true) in
  (bar_total (Revised.progressBar st1) = 3 /\ bar_value (Revised.progressBar st1) = 1) /\
  (bar_total (Revised.progressBar st2) = 2 /\ bar_value (Revised.progressBar st2) = 0) /\
  (bar_total (Revised.progressBar st3) = 1 /\ bar_value (Revised.progressBar st3) = 2).
Proof. vm_compute. auto 10. Qed.

(** C4 fails on the reworked downloader, its bar shown on a terminal.
    Three images are announced and discovered; two downloads complete
    and the count is 2; the third
    download fails once, then succeeds: its success sets the count to 1,
    and the chained increment leaves it at 2 although the three downloads
    have completed. *)
Theorem revised_retried_success_rewinds_count :
  let before := [Deliver (primary_response chapter "1,2,3"); Resume 0;
                 Deliver (ok_response onepiece_001); Deliver (ok_response onepiece_002);
                 Deliver (ok_response onepiece_003);
                 Try 0 success; Then 0; Try 1 success; Then 1; Try 2 unavailable] in
  let st1 := Revised.run chapter "./dl" before (Revised.start_state true) in
  let st2 := Revised.step chapter "./dl" (Try 2 success) st1 in
  let st3 := Revised.step chapter "./dl" (Then 2) st2 in
  bar_value (Revised.progressBar st1) = 2 /\
  bar_value (Revised.progressBar st2) = 1 /\
  bar_value (Revised.progressBar st3) = 2 /\
  map task_phase (Revised.downloadQueue st3) = [Counted; Counted; Counted] /\
  bar_total (Revised.progressBar st3) = 3.
Proof. vm_compute. auto 10. Qed.

(** In general: on a bar that has been started, a success of the
    reworked download after at least one failed attempt sets the
    completed count to 1, whatever it was. *)
Lemma revised_success_after_retry_sets_one (url dest : string) (st : Revised.pipeline)
    (i : nat) (t : task) (a : attempt) :
  Revised.downloadQueue st !! i = Some t ->
  task_phase t = Fetching -> 0 < task_attempts t -> succeeds a = true ->
  bar_active (Revised.progressBar st) = true ->
  bar_value (Revised.progressBar (Revised.step url dest (Try i a) st)) = 1.
Proof.
  intros Hi Hp Hn Hok Hact. simpl. rewrite Hi, Hp.
  destruct (revised_turn_succeeds (task_url t) (task_folder t) (task_name t)
              (task_dest t) (Revised.progressBar st) (task_attempts t)
              (Revised.disk_files st) a Hok) as (status & body & _ & _ & _ & ->).
  simpl. apply Nat.ltb_lt in Hn. rewrite Hn. unfold bar_update_value.
  now rewrite Hact.
Qed.

(** In [src/index.ts] every success adds one to the count of a bar that
    has been started. *)
Lemma index_success_adds_one (url dest : string) (st : Index.pipeline)
    (i : nat) (t : task) (a : attempt) :
  Index.downloadPromises st !! i = Some t ->
  task_phase t = Fetching -> succeeds a = true ->
  bar_active (Index.bar1 st) = true ->
  bar_value (Index.bar1 (Index.step url dest (Try i a) st)) = bar_value (Index.bar1 st) + 1.
Proof.
  intros Hi Hp Hok Hact. simpl. rewrite Hi, Hp.
  destruct (index_turn_succeeds (task_url t) (task_folder t) (task_name t)
              (task_dest t) (Index.bar1 st) (Index.disk_files st) a Hok)
    as (status & body & _ & _ & _ & ->).
  simpl. unfold bar_increment. now rewrite Hact.
Qed.


(** ** The count of the manifest *)

Lemma split_on_length (sep : ascii) (s : list ascii) :
  length (split_on sep s) = S (length (filter (fun c => c = sep) s)).
Proof.
  induction s as [|c s IH]; [reflexivity|]. simpl.
  rewrite filter_cons. destruct (ascii_eqb c sep) eqn:E.
  - apply ascii_eqb_eq in E. rewrite decide_True by assumption. simpl. now rewrite IH.
  - rewrite decide_False.
    2:{ intros ->. assert (ascii_eqb sep sep = true) by now apply ascii_eqb_eq.
        congruence. }
    destruct (split_on sep s); simpl in *; [discriminate|]. exact IH.
Qed.

Lemma js_split_commas (s : string) : length (js_split s ",") = S (commas s).
Proof.
  unfold js_split, commas. change (chars ",") with [","%char].
  cbv beta iota. rewrite List.length_map. apply split_on_length.
Qed.

Lemma commas_app (a b : string) : commas (a +:+ b) = commas a + commas b.
Proof. unfold commas. now rewrite chars_app, filter_app, length_app. Qed.

Lemma join_commas_fields (es : list string) :
  es <> [] -> (forall e, In e es -> commas e = 0) ->
  S (commas (join_commas es)) = length es.
Proof.
  induction es as [|e es IH]; [congruence|]. intros _ Hfree.
  destruct es as [|e' es].
  - simpl. rewrite Hfree; simpl; auto.
  - change (join_commas (e :: e' :: es)) with (e +:+ "," +:+ join_commas (e' :: es)).
    rewrite !commas_app, Hfree by (simpl; auto).
    change (commas ",") with 1.
    assert (S (commas (join_commas (e' :: es))) = length (e' :: es)) as IH'.
    { apply IH; [discriminate|]. intros x Hx. apply Hfree. simpl. auto. }
    simpl length in *. lia.
Qed.

(** The manifest count is the number of fields that commas separate in
    the text between the brackets; the text found holds no closing
    bracket and stands in the body after the key, at most one white
    space and the opening bracket. *)
Lemma manifest_match (body : string) (m : list string) :
  js_match images_re body = Some m ->
  exists pre sp inner rest,
    chars body = pre ++ (quote :: chars "images" ++ quote :: chars ":") ++ sp
                   ++ chars "[" ++ inner ++ chars "]" ++ rest /\
    (sp = [] \/ exists c, sp = [c] /\ is_space c = true) /\
    (forall c, In c inner -> c <> "]"%char) /\
    at_index m 1 = text inner /\
    length (js_split (at_index m 1) ",") = S (commas (text inner)).
Proof.
  intros H. apply js_match_sound in H as (pre & w & rest & cs & Hs & Hd & ->).
  simpl in Hd. break. subst.
  match goal with
  | H : forallb _ ?inner = true |- _ =>
      match goal with
      | Hsp : ?sp = [] \/ _ |- _ => exists pre, sp, inner, rest
      end
  end.
  repeat split.
  - rewrite Hs. change (chars "[") with ["["%char]. change (chars "]") with ["]"%char].
    change (quote :: chars "images" ++ quote :: chars ":")
      with [quote; "i"%char; "m"%char; "a"%char; "g"%char; "e"%char; "s"%char;
            quote; ":"%char].
    now rewrite <- !app_assoc.
  - assumption.
  - intros c Hc ->. eapply none_of_spec; [eapply forallb_In; eassumption|]. simpl. auto.
  - rewrite js_split_commas. reflexivity.
Qed.

(** A manifest with n elements, n at least 1, none holding a comma,
    gives the total n in the reworked handler. *)
Lemma revised_manifest_total (url dest : string) (st : Revised.pipeline)
    (r : response) (body : string) (m : list string) (es : list string) :
  resp_url r = url -> resp_ok r = true -> resp_text r = Ok body ->
  js_match images_re body = Some m ->
  at_index m 1 = join_commas es -> es <> [] ->
  (forall e, In e es -> commas e = 0) ->
  let st' := Revised.run url dest [Deliver r; Resume (length (Revised.awaiting st))] st in
  Revised.totalImages st' = length es /\
  Revised.progressBar st'
  = bar_start (length es) 0 (Some Initialisation) (Revised.progressBar st).
Proof.
  intros Hu Hok Ht Hm Hj Hne Hfree st'.
  pose proof (revised_manifest_restart url dest st r body m Hu Hok Ht Hm)
    as H.
  cbv zeta in H. fold st' in H.
  rewrite js_split_commas, Hj, join_commas_fields in H by assumption. exact H.
Qed.

(** The example of the specification: three elements, total 3, bar at
    0 of 3, with either handler. *)
Lemma manifest_of_three :
  let st := Revised.run chapter "./dl" [Deliver (primary_response chapter "1,2,3"); Resume 0]
              (Revised.start_state true) in
  let st' := Index.run chapter "./dl" [Deliver (primary_response chapter "1,2,3"); Resume 0]
              (Index.start_state true) in
  Revised.totalImages st = 3 /\
  Revised.progressBar st = Bar true 3 0 (Some Initialisation) true /\
  Index.taille st' = 3 /\ Index.bar1 st' = Bar true 3 0 None true.
Proof. vm_compute. auto. Qed.

(** C8 fails on an empty manifest: nothing stands between the brackets,
    the split of the empty text has one field, and both handlers take 1
    for the number of images; the reworked one prints it, and on a
    terminal both start the bar at 0 of 1 (off a terminal the bar is not
    started). *)
Theorem empty_manifest_counts_one (tty : bool) :
  let empty := primary_response chapter "" in
  let st := Revised.run chapter "./dl" [Deliver empty; Resume 0] (Revised.start_state tty) in
  let st' := Index.run chapter "./dl" [Deliver empty; Resume 0] (Index.start_state tty) in
  js_match images_re (manifest_body "")
  = Some [text (quote :: chars "images" ++ [quote]) +:+ ": []"; ""] /\
  js_split "" "," = [""] /\
  Revised.totalImages st = 1 /\
  Revised.console st = [ImagesDetected 1] /\
  Revised.progressBar st
  = (if tty then Bar true 1 0 (Some Initialisation) true else new_bar false) /\
  Index.taille st' = 1 /\
  Index.bar1 st' = (if tty then Bar true 1 0 None true else new_bar false).
Proof. destruct tty; vm_compute; auto 10. Qed.


(** ** The challenge loop *)

Lemma waits_notice (attempts : nat) (tr : list effect) :
  waits ((if (attempts =? 0)%nat then [Printed CloudflareNotice] else []) ++ tr) = waits tr.
Proof. destruct (attempts =? 0)%nat; reflexivity. Qed.

Lemma reports_notice (attempts : nat) (tr : list effect) :
  reports_failure ((if (attempts =? 0)%nat then [Printed CloudflareNotice] else []) ++ tr)
  = reports_failure tr.
Proof. destruct (attempts =? 0)%nat; reflexivity. Qed.

Lemma revised_loop_waits (b : browser) (fuel : nat) :
  forall attempts, waits (Revised.challenge_loop fuel attempts b).2 <= 5 - attempts.
Proof.
  induction fuel as [|fuel IH]; intros attempts; simpl; [lia|].
  destruct (innerText b attempts) as [t|e]; simpl; [|lia].
  destruct ((t =? challenge_title)%string); simpl; [|lia].
  destruct (attempts <? 5)%nat eqn:E; simpl; [|lia].
  apply Nat.ltb_lt in E.
  destruct (waitForURL b attempts) as [[]|e]; simpl.
  - specialize (IH (attempts + 1)).
    destruct (Revised.challenge_loop fuel (attempts + 1) b) as [o tr]. simpl in *.
    rewrite waits_notice. simpl. lia.
  - rewrite waits_notice. simpl. lia.
Qed.

Lemma revised_loop_ends (b : browser) (fuel : nat) :
  forall attempts, 5 - attempts < fuel ->
                   (Revised.challenge_loop fuel attempts b).1 <> Running.
Proof.
  induction fuel as [|fuel IH]; intros attempts Hf; simpl; [lia|].
  destruct (innerText b attempts) as [t|e]; simpl; [|discriminate].
  destruct ((t =? challenge_title)%string); simpl; [|discriminate].
  destruct (attempts <? 5)%nat eqn:E; simpl; [|discriminate].
  apply Nat.ltb_lt in E.
  destruct (waitForURL b attempts) as [[]|e]; simpl; [|discriminate].
  specialize (IH (attempts + 1)).
  destruct (Revised.challenge_loop fuel (attempts + 1) b) as [o tr]. simpl in *.
  apply IH. lia.
Qed.

Lemma revised_loop_exhausted (b : browser) (fuel : nat) :
  (forall n, n <= 5 -> innerText b n = Ok challenge_title) ->
  (forall n, n < 5 -> waitForURL b n = Ok tt) ->
  forall attempts, attempts <= 5 -> 5 - attempts < fuel ->
    exists tr, Revised.challenge_loop fuel attempts b = (Returned tt, tr) /\
               waits tr = 5 - attempts /\ reports_failure tr = false.
Proof.
  intros Ht Hw. induction fuel as [|fuel IH]; intros attempts Ha Hf; simpl; [lia|].
  rewrite Ht by assumption. rewrite String.eqb_refl. simpl.
  destruct (attempts <? 5)%nat eqn:E; simpl.
  - apply Nat.ltb_lt in E. rewrite Hw by assumption.
    destruct (IH (attempts + 1)) as (tr & -> & Hn & Hr); [lia|lia|].
    eexists. split; [reflexivity|]. simpl. rewrite waits_notice, reports_notice.
    simpl. split; [lia|exact Hr].
  - apply Nat.ltb_ge in E. exists [ReadTitle]. simpl. repeat split. lia.
Qed.

Lemma waits_app (tr1 tr2 : list effect) : waits (tr1 ++ tr2) = waits tr1 + waits tr2.
Proof.
  induction tr1 as [|e tr1 IH]; [reflexivity|]. destruct e; simpl; rewrite IH; lia.
Qed.

Lemma reports_app (tr1 tr2 : list effect) :
  reports_failure (tr1 ++ tr2) = reports_failure tr1 || reports_failure tr2.
Proof. apply existsb_app. Qed.

(** C5, as amended.  In the reworked bootstrap the loop that waits while
    the title is the challenge title takes at most 5 turns and then ends.
    When the challenge is still shown after the fifth wait nothing is
    reported: the cookies of the context are harvested and returned as on
    success. *)
Theorem revised_challenge_loop_bounded (fuel : nat) (url : string)
    (existingCookies : list cookie) (b : browser) :
  let res := Revised.preloadCookies fuel url existingCookies b in
  waits res.2 <= 5 /\
  (6 <= fuel -> res.1 <> Running) /\
  (6 <= fuel -> goto b = Ok tt ->
   (forall n, n <= 5 -> innerText b n = Ok challenge_title) ->
   (forall n, n < 5 -> waitForURL b n = Ok tt) ->
   res.1 = Returned (context_cookies b) /\ waits res.2 = 5 /\
   reports_failure res.2 = false /\ closes res.2 = true).
Proof.
  intros res. subst res. unfold Revised.preloadCookies, Revised.try_block.
  split; [|split].
  - destruct (goto b) as [[]|e]; simpl; [|lia].
    pose proof (revised_loop_waits b fuel 0) as H.
    destruct (Revised.challenge_loop fuel 0 b) as [[| | |] tr]; simpl in *;
      rewrite ?waits_app; simpl; lia.
  - intros Hf. destruct (goto b) as [[]|e]; simpl; [|discriminate].
    pose proof (revised_loop_ends b fuel 0) as H.
    destruct (Revised.challenge_loop fuel 0 b) as [[| | |] tr]; simpl in *;
      try discriminate.
    exfalso. apply H; [lia|reflexivity].
  - intros Hf Hg Ht Hw. rewrite Hg.
    destruct (revised_loop_exhausted b fuel Ht Hw 0) as (tr & -> & Hn & Hr); [lia|lia|].
    simpl. rewrite waits_app, Hn. simpl. rewrite reports_app, Hr. simpl.
    repeat split; try lia. unfold closes. rewrite existsb_app. simpl.
    now rewrite orb_true_r.
Qed.

Lemma revised_challenge_loop_bounded_witness :
  (Revised.preloadCookies 6 chapter [] stuck).1 = Returned session /\
  waits (Revised.preloadCookies 6 chapter [] stuck).2 = 5.
Proof.
  destruct (proj2 (proj2 (revised_challenge_loop_bounded 6 chapter [] stuck)))
    as (H1 & H2 & _).
  - lia.
  - reflexivity.
  - intros n _. reflexivity.
  - intros n _. reflexivity.
  - split; [exact H1|exact H2].
Defined.

(** C5 as stated fails.  With a browser that keeps showing the challenge
    the reworked loop stops after 5 waits, the title being the challenge
    title still; no failure is reported, the call returns the cookies of
    the context as a success does.  The loop of [src/index.ts] has no
    bound. *)
Lemma challenge_bound_counterexample :
  innerText stuck 5 = Ok challenge_title /\
  Revised.preloadCookies 6 chapter [] stuck
  = (Returned session,
     [Printed ValidationStarts; Launch; AddCookies []; Goto chapter;
      ReadTitle; Printed CloudflareNotice; WaitForURL; ReadTitle; WaitForURL;
      ReadTitle; WaitForURL; ReadTitle; WaitForURL; ReadTitle; WaitForURL;
      ReadTitle; Harvest; Close]) /\
  reports_failure (Revised.preloadCookies 6 chapter [] stuck).2 = false.
Proof. vm_compute. auto. Qed.

(** The loop of [src/index.ts] turns as long as the challenge is shown. *)
Lemma index_loop_unbounded (fuel : nat) :
  forall n initial,
    (Index.challenge_loop fuel n initial stuck).1 = Running /\
    waits (Index.challenge_loop fuel n initial stuck).2 = fuel.
Proof.
  induction fuel as [|fuel IH]; intros n initial; simpl; [auto|].
  destruct (IH (S n) true) as [H1 H2].
  destruct (Index.challenge_loop fuel (S n) true stuck) as [o tr]. simpl in *.
  split; [exact H1|]. destruct initial; simpl; now rewrite H2.
Qed.

Lemma index_challenge_unbounded (fuel : nat) (url : string) (cs : list cookie) :
  (Index.preloadCookies fuel url cs stuck).1 = Running /\
  waits (Index.preloadCookies fuel url cs stuck).2 = fuel.
Proof.
  unfold Index.preloadCookies. simpl.
  destruct (index_loop_unbounded fuel 0 false) as [H1 H2].
  destruct (Index.challenge_loop fuel 0 false stuck) as [o tr]. simpl in *.
  subst o. simpl. split; [reflexivity|exact H2].
Qed.

(** ** Cleanup of the bootstrap *)

(** C6 fails on both variants.  When the navigation is rejected, the
    reworked bootstrap prints the failure and stops the process with
    status 1: the cookies are not harvested, the browser is not closed
    and nothing is returned; the first bootstrap is rejected at the
    navigation and closes nothing either. *)
Theorem navigation_failure_skips_cleanup :
  Revised.preloadCookies 6 chapter session unreachable
  = (Exited 1,
     [Printed ValidationStarts; Launch; AddCookies session; Goto chapter;
      Printed (ValidationFailed "page.goto: Timeout 30000ms exceeded.")]) /\
  closes (Revised.preloadCookies 6 chapter session unreachable).2 = false /\
  Index.preloadCookies 6 chapter session unreachable
  = (Rejected (ErrorObj "page.goto: Timeout 30000ms exceeded."),
     [Launch; AddCookies session; Goto chapter]) /\
  closes (Index.preloadCookies 6 chapter session unreachable).2 = false.
Proof. vm_compute. auto. Qed.

(** In general: whenever the try block of the reworked bootstrap throws
    (navigation, read of the title or wait), the process exits with
    status 1 and the browser is not closed. *)
Lemma revised_failure_exits_without_cleanup (fuel : nat) (url : string)
    (cs : list cookie) (b : browser) (e : thrown) (tr : list effect) :
  Revised.try_block fuel url b = (Rejected e, tr) ->
  closes tr = false ->
  (Revised.preloadCookies fuel url cs b).1 = Exited 1 /\
  closes (Revised.preloadCookies fuel url cs b).2 = false.
Proof.
  intros H Hc. unfold Revised.preloadCookies. rewrite H. simpl. split; [reflexivity|].
  unfold closes in *. rewrite existsb_app, Hc. reflexivity.
Qed.


(** ** The cookie file *)

(** C9 fails on [src/index.ts].  With a cookie file that does not parse,
    [loadSavedCookies] throws: the run is rejected before the browser is
    launched and nothing is printed about the error; with a disk that
    refuses the write, [saveCookies] throws and the run is rejected after
    the validation. *)
Theorem index_cookie_errors_are_fatal :
  Index.manage_cookies 6 chapter truncated_json None welcome
  = (Rejected (ErrorObj "Unexpected end of JSON input"), truncated_json,
     [Printed (Plain "preloading cookies")]) /\
  (Index.manage_cookies 6 chapter Absent disk_full welcome).1.1
  = Rejected (ErrorObj "ENOSPC: no space left on device, write").
Proof. vm_compute. auto. Qed.

(** The reworked variant recovers: a file that cannot be read or parsed
    gives the empty set and a printed error, a failed write a printed
    error and the file as it was; the outcome of the stage is the outcome
    of the validation. *)
Lemma revised_cookie_errors_recovered (fuel : nat) (url : string) (f : cookie_file)
    (d : disk) (b : browser) (e : thrown) :
  (f = Unreadable e \/ f = Unparsable e ->
   Revised.loadSavedCookies f
   = ([], [CookieReadError (message_or Revised.unknown_error e)])) /\
  (forall cs, d = Some e ->
   Revised.saveCookies cs d f
   = (f, [CookieSaveError (message_or Revised.unknown_error e)])) /\
  (Revised.manage_cookies fuel url f d b).1.1
  = (Revised.preloadCookies fuel url (Revised.loadSavedCookies f).1 b).1.
Proof.
  split; [|split].
  - intros [->| ->]; reflexivity.
  - intros cs ->. reflexivity.
  - unfold Revised.manage_cookies.
    destruct (Revised.loadSavedCookies f) as [cs printed]. simpl.
    destruct (Revised.preloadCookies fuel url cs b) as [[| | |] tr]; simpl; try reflexivity.
    destruct (Revised.saveCookies a d f). reflexivity.
Qed.

Lemma revised_cookie_errors_example :
  Revised.manage_cookies 6 chapter truncated_json disk_full welcome
  = (Returned session, truncated_json,
     [Printed (CookieReadError "Unexpected end of JSON input");
      Printed ValidationStarts; Launch; AddCookies []; Goto chapter; ReadTitle;
      Harvest; Close;
      Printed (CookieSaveError "ENOSPC: no space left on device, write")]).
Proof. vm_compute. reflexivity. Qed.


(** ** URLs that the extraction pattern does not match *)

(** C7 fails on [src/index.ts].  This URL passes the filter and is not
    matched by the extraction pattern; the handler records it and then
    destructures [null]: its call is rejected with a [TypeError] that
    nothing catches, and nothing is printed.  The reworked handler prints
    the error and goes on. *)
Theorem index_malformed_asset_rejects (tty : bool) :
  let st := Index.run chapter "./dl" [Deliver (ok_response one_piece_1)] (Index.start_state tty) in
  let st' := Revised.run chapter "./dl" [Deliver (ok_response one_piece_1)]
               (Revised.start_state tty) in
  js_match upload_asset_re one_piece_1 <> None /\
  js_match folder_name_re one_piece_1 = None /\
  Index.unhandled st = [not_iterable] /\ Index.wire st = [] /\
  Index.downloadPromises st = [] /\ Index.urlPassed st = [one_piece_1] /\
  Revised.console st' = [ProcessingError (message_of not_iterable)] /\
  Revised.downloadQueue st' = [].
Proof. vm_compute. repeat split; try reflexivity. discriminate. Qed.

(** In general, for the handler of [src/index.ts]. *)
Lemma index_malformed_asset (dest : string) (r : response) (st : Index.pipeline) :
  resp_ok r = true ->
  js_match upload_asset_re (resp_url r) <> None ->
  js_match folder_name_re (resp_url r) = None ->
  resp_url r ∉ Index.urlPassed st ->
  let st' := Index.discover dest r st in
  Index.unhandled st' = Index.unhandled st ++ [not_iterable] /\
  Index.downloadPromises st' = Index.downloadPromises st /\
  Index.wire st' = Index.wire st.
Proof.
  intros Hok Hf He Hin. unfold Index.discover. rewrite Hok, He.
  rewrite bool_decide_eq_true_2
    by (destruct (js_match upload_asset_re (resp_url r)); [eauto|congruence]).
  rewrite bool_decide_eq_false_2 by assumption. simpl. auto.
Qed.

(** In general, for the reworked handler: the event is logged and
    skipped, no download is created, and the handler ends normally. *)
Lemma revised_malformed_asset (url dest : string) (r : response) (st : Revised.pipeline) :
  resp_url r <> url ->
  js_match upload_asset_re (resp_url r) <> None ->
  js_match folder_name_re (resp_url r) = None ->
  resp_url r ∉ Revised.processedUrls st ->
  let st' := Revised.step url dest (Deliver r) st in
  Revised.console st' = Revised.console st ++ [ProcessingError (message_of not_iterable)] /\
  Revised.downloadQueue st' = Revised.downloadQueue st /\
  Revised.awaiting st' = Revised.awaiting st /\
  Revised.progressBar st' = Revised.progressBar st.
Proof.
  intros Hne Hf He Hin. simpl. unfold Revised.on_response.
  apply String.eqb_neq in Hne. rewrite Hne. simpl.
  unfold Revised.discover. rewrite He.
  rewrite bool_decide_eq_true_2
    by (destruct (js_match upload_asset_re (resp_url r)); [eauto|congruence]).
  rewrite bool_decide_eq_false_2 by assumption. simpl. auto.
Qed.

(** ** Where the files are written *)

Lemma asset_path_relative (dest folder name : string) :
  asset_path dest folder name = dest +:+ "/" +:+ asset_relative folder name.
Proof. reflexivity. Qed.

Lemma descriptor_captures (dest : string) (t : task) :
  descriptor_of dest t ->
  single_segment (task_folder t) /\ decimal (task_name t) /\ task_dest t = dest.
Proof.
  intros (m & Hm & Hf & Hn & Hd).
  apply folder_name_captures in Hm as (whole & folder & name & -> & Hfs & Hns).
  rewrite Hf, Hn. unfold at_index. simpl. auto.
Qed.

(** C10, as amended.  Every download that the reworked handler creates,
    in any run, has a folder that is not empty and holds neither slash
    nor dash, and a name made of decimal digits; its file is
    destination/folder/name.jpg, and this path lies exactly two levels
    below the destination when the folder is neither a single dot nor
    two dots. *)
Theorem revised_asset_path_two_levels (tty : bool)
    (url dest : string) (acts : list action) (t : task) :
  t ∈ Revised.downloadQueue (Revised.run url dest acts (Revised.start_state tty)) ->
  single_segment (task_folder t) /\ decimal (task_name t) /\
  asset_path (task_dest t) (task_folder t) (task_name t)
  = dest +:+ "/" +:+ asset_relative (task_folder t) (task_name t) /\
  (task_folder t <> "." -> task_folder t <> ".." ->
   resolve (asset_relative (task_folder t) (task_name t))
   = Some [task_folder t; task_name t +:+ ".jpg"]).
Proof.
  intros Hin.
  pose proof (revised_run_inv url dest acts _ (revised_start_inv tty dest)) as [_ _ H3 _].
  apply (proj1 (Forall_forall _ _) H3) in Hin.
  apply descriptor_captures in Hin as (Hf & Hn & ->).
  split; [exact Hf|]. split; [exact Hn|]. split; [reflexivity|].
  intros Hdot Hdots. now apply resolve_two_levels.
Qed.

(** The same for the handler of [src/index.ts]. *)
Lemma index_asset_path_two_levels (tty : bool) (url dest : string) (acts : list action) (t : task) :
  t ∈ Index.downloadPromises (Index.run url dest acts (Index.start_state tty)) ->
  single_segment (task_folder t) /\ decimal (task_name t) /\ task_dest t = dest /\
  (task_folder t <> "." -> task_folder t <> ".." ->
   resolve (asset_relative (task_folder t) (task_name t))
   = Some [task_folder t; task_name t +:+ ".jpg"]).
Proof.
  intros Hin.
  pose proof (index_run_inv url dest acts _ (index_start_inv tty dest)) as [_ _ H3 _].
  apply (proj1 (Forall_forall _ _) H3) in Hin.
  apply descriptor_captures in Hin as (Hf & Hn & ->).
  split; [exact Hf|]. split; [exact Hn|]. split; [reflexivity|].
  intros Hdot Hdots. now apply resolve_two_levels.
Qed.

Lemma revised_asset_path_two_levels_witness :
  resolve (asset_relative "OnePiece" "001") = Some ["OnePiece"; "001.jpg"].
Proof.
  apply (revised_asset_path_two_levels true chapter "./dl"
           [Deliver (ok_response onepiece_001)]
           (new_task onepiece_001 "OnePiece" "001" "./dl")).
  - vm_compute. apply list_elem_of_singleton. reflexivity.
  - discriminate.
  - discriminate.
Defined.

(** C10 as stated fails.  This URL passes the filter; its download has
    the folder made of two dots, its file is written at ./dl/../1.jpg,
    and that path leaves the destination folder. *)
Lemma asset_path_counterexample :
  let st := Revised.run chapter "./dl" [Deliver (ok_response dotdot_1); Try 0 success]
              (Revised.start_state true) in
  map task_folder (Revised.downloadQueue st) = [".."] /\
  map task_name (Revised.downloadQueue st) = ["1"] /\
  Revised.wire st = [Get dotdot_1; WriteFile "./dl/../1.jpg" "JPEG"] /\
  resolve (asset_relative ".." "1") = None /\
  resolve "../1.jpg" = None.
Proof. vm_compute. auto 10. Qed.

(** * Further properties *)

(** ** The primary document and the assets in [src/index.ts] *)

Lemma last_of_nonempty (l : list ascii) :
  l <> [] -> exists pre c, l = pre ++ [c].
Proof.
  intros H. destruct (exists_last H) as (pre & c & ->). now exists pre, c.
Qed.

Lemma ends_in_word_app (l1 l2 : list ascii) :
  ends_in_word l2 -> ends_in_word (l1 ++ l2).
Proof.
  intros (pre & c & -> & Hc). exists (l1 ++ pre), c. now rewrite app_assoc.
Qed.

Lemma folder_name_ends_with_word (u : string) :
  js_match folder_name_re u <> None -> ends_in_word (chars u).
Proof.
  destruct (js_match folder_name_re u) as [m|] eqn:E; [|congruence]. intros _.
  apply js_match_sound in E as (pre & w & rest & cs & Hs & Hd & _).
  simpl in Hd. break. subst. rewrite Hs, !app_nil_r.
  repeat apply ends_in_word_app.
  match goal with
  | H : forallb (mem Word) ?x = true, Hne : ?x <> [] |- _ =>
      destruct (last_of_nonempty x Hne) as (p & c & ->);
      rewrite forallb_app in H; apply andb_true_iff in H as [_ Hc];
      simpl in Hc; rewrite andb_true_r in Hc
  end.
  now exists p, c.
Qed.

Lemma primary_ends_with_slash (url : string) :
  exists pre, chars (Index.primary url) = pre ++ ["/"%char].
Proof.
  unfold Index.primary, ends_with_slash.
  destruct (rev (chars url)) as [|c l] eqn:E.
  - exists (chars url). now rewrite chars_app.
  - destruct (ascii_eqb c "/") eqn:Ec.
    + apply ascii_eqb_eq in Ec as ->. exists (rev l).
      rewrite <- (rev_involutive (chars url)), E. reflexivity.
    + exists (chars url). now rewrite chars_app.
Qed.

Lemma asset_is_not_primary (url u : string) :
  js_match folder_name_re u <> None -> u <> Index.primary url.
Proof.
  intros Hm ->. destruct (folder_name_ends_with_word _ Hm) as (pre & c & Hc & Hw).
  destruct (primary_ends_with_slash url) as (pre' & Hp).
  rewrite Hp in Hc. apply app_inj_tail in Hc as [_ <-]. vm_compute in Hw. discriminate.
Qed.

(** X1.  In [src/index.ts], whatever the order of events, resumptions
    and download steps, at most one download is created per URL; exactly
    one is created for a URL that both patterns match once a successful
    response carrying it has been delivered; and the primary document
    (the target URL with its final slash) is never queued as an asset. *)
Theorem index_discovery_once (tty : bool) (url dest : string) (acts : list action) (u : string) :
  let q := Index.downloadPromises (Index.run url dest acts (Index.start_state tty)) in
  tasks_for u q <= 1 /\
  tasks_for (Index.primary url) q = 0 /\
  (forall r, In (Deliver r) acts -> resp_url r = u -> resp_ok r = true ->
             js_match upload_asset_re u <> None ->
             js_match folder_name_re u <> None ->
             tasks_for u q = 1).
Proof.
  intros q. split; [apply (index_one_download_per_url tty url dest acts u)|]. split.
  - pose proof (index_run_inv url dest acts _ (index_start_inv tty dest)) as [_ _ H3 _].
    fold q in H3. unfold tasks_for.
    destruct (filter _ q) as [|t l] eqn:E; [reflexivity|]. exfalso.
    assert (t ∈ filter (fun t0 => task_url t0 = Index.primary url) q) as Hin
      by (rewrite E; apply elem_of_cons; auto).
    apply list_elem_of_filter in Hin as [Hu Hin].
    apply (proj1 (Forall_forall _ _) H3) in Hin as (m & Hm & _).
    apply (asset_is_not_primary url (task_url t)); [now rewrite Hm|exact Hu].
  - intros r Hin Hu Hok Hf He.
    apply (proj2 (index_one_download_per_url tty url dest acts u) r); auto.
    now apply asset_is_not_primary.
Qed.

Lemma index_discovery_once_witness :
  tasks_for onepiece_001
    (Index.downloadPromises
       (Index.run chapter "./dl"
          [Deliver (ok_response onepiece_001); Deliver (ok_response onepiece_001)]
          (Index.start_state true))) = 1.
Proof.
  apply (proj2 (proj2 (index_discovery_once true chapter "./dl"
                  [Deliver (ok_response onepiece_001); Deliver (ok_response onepiece_001)]
                  onepiece_001)))
    with (r := ok_response onepiece_001).
  - simpl. auto.
  - reflexivity.
  - reflexivity.
  - vm_compute. discriminate.
  - vm_compute. discriminate.
Defined.

(** ** The files on disk *)












(** ** The completed count of [src/index.ts] *)







(** ** What failed attempts show *)

Lemma revised_turn_fails_bar (u folder name dest : string) (b : bar) (n : nat)
    (fs : files) (a : attempt) :
  succeeds a = false ->
  Revised.turn_of u folder name b dest n fs a
  = Again (n + 1)
      (if (n + 1 <=? 3)%nat then bar_update (Essai (n + 1) u (message_of (revised_error a))) b
       else if (n + 1 =? 4)%nat then bar_update (SilentRetries u) b else b)
      [Get u; Delay 10000%N].
Proof.
  intros (e & He)%(succeeds_false "Statut HTTP ").
  unfold Revised.turn_of, revised_error. rewrite He. reflexivity.
Qed.

Lemma revised_download_unfold (env : nat -> attempt) (u folder name dest : string)
    (fs : files) (fuel n : nat) (b : bar) :
  Revised.downloadWithRetry (S fuel) env n u folder name b dest fs
  = match Revised.turn_of u folder name b dest n fs (env n) with
    | Done b' fs' tr => (Returned tt, b', fs', tr)
    | Again attempts' b' tr =>
        let '(o, b'', fs', tr') :=
          Revised.downloadWithRetry fuel env attempts' u folder name b' dest fs in
        (o, b'', fs', tr ++ tr')
    end.
Proof. reflexivity. Qed.

Lemma revised_silent_stays (env : nat -> attempt) (u folder name dest : string)
    (fs : files) (fuel : nat) :
  forall (n : nat) (b : bar),
    4 <= n -> (forall i, i < fuel -> succeeds (env (n + i)) = false) ->
    (Revised.downloadWithRetry fuel env n u folder name b dest fs).1.1.2 = b.
Proof.
  induction fuel as [|fuel IH]; intros n b Hn Hfail; simpl; [reflexivity|].
  rewrite revised_turn_fails_bar
    by (rewrite <- (Nat.add_0_r n) at 1; apply Hfail; lia).
  destruct (n + 1 <=? 3)%nat eqn:E1; [apply Nat.leb_le in E1; lia|].
  destruct (n + 1 =? 4)%nat eqn:E2; [apply Nat.eqb_eq in E2; lia|].
  specialize (IH (n + 1) b).
  destruct (Revised.downloadWithRetry fuel env (n + 1) u folder name b dest fs)
    as [[[o b'] fs'] tr]. simpl in *. apply IH; [lia|].
  intros i Hi. replace (n + 1 + i) with (n + S i) by lia. apply Hfail. lia.
Qed.

Lemma bar_update_twice (p q : suffix) (b : bar) :
  bar_update p (bar_update q b) = bar_update p b.
Proof. unfold bar_update. destruct (bar_active b) eqn:E; simpl; now rewrite ?E. Qed.

Lemma revised_diagnostic_from (env : nat -> attempt) (u folder name dest : string)
    (fs : files) (fuel : nat) :
  forall (n : nat) (b : bar),
    n <= 3 -> (forall i, i < S fuel -> succeeds (env (n + i)) = false) ->
    (Revised.downloadWithRetry (S fuel) env n u folder name b dest fs).1.1.2
    = bar_update (revised_diagnostic u env (n + S fuel)) b.
Proof.
  induction fuel as [|fuel IH]; intros n b Hn Hfail.
  - simpl. rewrite revised_turn_fails_bar
      by (rewrite <- (Nat.add_0_r n) at 1; apply Hfail; lia).
    simpl. unfold revised_diagnostic. replace (n + 1 - 1) with n by lia.
    destruct (n + 1 <=? 3)%nat eqn:E1; [reflexivity|].
    apply Nat.leb_gt in E1.
    assert ((n + 1 =? 4)%nat = true) as -> by (apply Nat.eqb_eq; lia). reflexivity.
  - rewrite revised_download_unfold.
    rewrite revised_turn_fails_bar
      by (rewrite <- (Nat.add_0_r n) at 1; apply Hfail; lia).
    assert (forall i, i < S fuel -> succeeds (env (n + 1 + i)) = false) as Hrest.
    { intros i Hi. replace (n + 1 + i) with (n + S i) by lia. apply Hfail. lia. }
    destruct (n + 1 <=? 3)%nat eqn:E1.
    + apply Nat.leb_le in E1.
      specialize (IH (n + 1) (bar_update (Essai (n + 1) u (message_of (revised_error (env n)))) b)
                    E1 Hrest).
      destruct (Revised.downloadWithRetry (S fuel) env (n + 1) u folder name _ dest fs)
        as [[[o b'] fs'] tr]. simpl in *. rewrite IH.
      replace (n + 1 + S fuel) with (n + S (S fuel)) by lia. apply bar_update_twice.
    + apply Nat.leb_gt in E1.
      assert ((n + 1 =? 4)%nat = true) as -> by (apply Nat.eqb_eq; lia).
      pose proof (revised_silent_stays env u folder name dest fs (S fuel) (n + 1)
                    (bar_update (SilentRetries u) b) ltac:(lia) Hrest) as Hs.
      destruct (Revised.downloadWithRetry (S fuel) env (n + 1) u folder name _ dest fs)
        as [[[o b'] fs'] tr]. simpl in *. rewrite Hs.
      unfold revised_diagnostic.
      assert ((n + S (S fuel) <=? 3)%nat = false) as -> by (apply Nat.leb_gt; lia).
      reflexivity.
Qed.

(** X5.  While the attempts of the reworked download fail, a bar that
    has been started keeps its total and its completed count, and its
    suffix tells the failures sparingly: after the first, second and
    third failed attempt it shows the attempt number with the last
    error, from the fourth on the notice of silent retries, which later
    failures no longer change.  A bar that has not been started (no
    manifest read yet, or no terminal) shows nothing of it: it is left
    as it is. *)
Theorem revised_failures_are_shown_sparingly (env : nat -> attempt)
    (u folder name dest : string) (b : bar) (fs : files) (fuel : nat) :
  0 < fuel -> all_fail env fuel ->
  let b' := (Revised.downloadWithRetry fuel env 0 u folder name b dest fs).1.1.2 in
  (bar_active b = true ->
   b' = Bar (bar_tty b) (bar_total b) (bar_value b)
          (Some (revised_diagnostic u env fuel)) true) /\
  (bar_active b = false -> b' = b).
Proof.
  intros Hf Hfail b'. subst b'. destruct fuel as [|fuel]; [lia|].
  rewrite (revised_diagnostic_from env u folder name dest fs fuel 0 b) by (auto; lia).
  unfold bar_update. split; intros ->; reflexivity.
Qed.

Lemma revised_failures_are_shown_sparingly_witness :
  (Revised.downloadWithRetry 6 (fun _ => unavailable) 0 onepiece_001 "OnePiece" "001"
     (Bar true 3 1 (Some Initialisation) true) "./dl" ∅).1.1.2
  = Bar true 3 1 (Some (SilentRetries onepiece_001)) true.
Proof.
  apply (revised_failures_are_shown_sparingly (fun _ => unavailable) onepiece_001
           "OnePiece" "001" "./dl" (Bar true 3 1 (Some Initialisation) true) ∅ 6).
  - lia.
  - intros i _. reflexivity.
  - reflexivity.
Defined.

(** ** What a download of [src/index.ts] changes *)





(** ** The bootstrap, in general *)

Lemma guidance_app (tr1 tr2 : list effect) :
  guidance (tr1 ++ tr2) = guidance tr1 + guidance tr2.
Proof.
  induction tr1 as [|e tr1 IH]; [reflexivity|].
  destruct e as [| | | | | | |l]; simpl; try exact IH.
  destruct l; simpl; try exact IH; try (now rewrite IH).
  destruct (s =? "is in cloudflare!")%string; simpl; now rewrite IH.
Qed.

Lemma closes_app (tr1 tr2 : list effect) : closes (tr1 ++ tr2) = closes tr1 || closes tr2.
Proof. apply existsb_app. Qed.

Lemma revised_loop_quiet (b : browser) (fuel : nat) :
  forall attempts,
    closes (Revised.challenge_loop fuel attempts b).2 = false /\
    reports_failure (Revised.challenge_loop fuel attempts b).2 = false /\
    (0 < attempts -> guidance (Revised.challenge_loop fuel attempts b).2 = 0).
Proof.
  induction fuel as [|fuel IH]; intros attempts; simpl; [auto|].
  destruct (innerText b attempts) as [t|e]; simpl; [|auto].
  destruct ((t =? challenge_title)%string); simpl; [|auto].
  destruct (attempts <? 5)%nat; simpl; [|auto].
  destruct (IH (attempts + 1)) as (I1 & I2 & I3).
  destruct (waitForURL b attempts) as [[]|e]; simpl.
  - destruct (Revised.challenge_loop fuel (attempts + 1) b) as [o tr]. simpl in *.
    destruct (attempts =? 0)%nat eqn:E; simpl; rewrite I1, I2; repeat split; auto.
    + apply Nat.eqb_eq in E. lia.
    + intros _. apply I3. lia.
  - destruct (attempts =? 0)%nat eqn:E; simpl; repeat split; auto.
    apply Nat.eqb_eq in E. lia.
Qed.

Lemma index_loop_quiet (b : browser) (fuel : nat) :
  forall n initial,
    closes (Index.challenge_loop fuel n initial b).2 = false /\
    (initial = true -> guidance (Index.challenge_loop fuel n initial b).2 = 0).
Proof.
  induction fuel as [|fuel IH]; intros n initial; simpl; [auto|].
  destruct (innerText b n) as [t|e]; simpl; [|auto].
  destruct ((t =? challenge_title)%string); simpl; [|auto].
  destruct (IH (S n) true) as (I1 & I2).
  destruct (waitForURL b n) as [[]|e]; simpl.
  - destruct (Index.challenge_loop fuel (S n) true b) as [o tr]. simpl in *.
    destruct initial; simpl; rewrite I1; auto. split; [reflexivity|discriminate].
  - destruct initial; simpl; auto. split; [reflexivity|discriminate].
Qed.

Lemma revised_loop_never_exits (b : browser) (fuel : nat) :
  forall attempts c, (Revised.challenge_loop fuel attempts b).1 <> Exited c.
Proof.
  induction fuel as [|fuel IH]; intros a c; simpl; [discriminate|].
  destruct (innerText b a); simpl; [|discriminate].
  destruct (_ && _); simpl; [|discriminate].
  destruct (waitForURL b a) as [[]|]; simpl; [|discriminate].
  specialize (IH (a + 1) c).
  destruct (Revised.challenge_loop fuel (a + 1) b). exact IH.
Qed.

Lemma revised_session_untroubled (fuel : nat) (url : string) (cs : list cookie)
    (b : browser) :
  RevisedSession.preloadCookies untroubled fuel url cs b
  = Revised.preloadCookies fuel url cs b.
Proof.
  unfold RevisedSession.preloadCookies, Revised.preloadCookies. simpl.
  destruct (Revised.try_block fuel url b) as [[[]|e|c|] tr]; reflexivity.
Qed.

Lemma revised_try_block_ends (fuel : nat) (url : string) (b : browser) :
  6 <= fuel ->
  closes (Revised.try_block fuel url b).2 = false /\
  reports_failure (Revised.try_block fuel url b).2 = false /\
  ((Revised.try_block fuel url b).1 = Returned tt
   \/ exists e, (Revised.try_block fuel url b).1 = Rejected e).
Proof.
  intros Hf. unfold Revised.try_block.
  destruct (goto b) as [[]|e]; simpl; [|eauto].
  pose proof (revised_loop_ends b fuel 0 ltac:(lia)) as Hend.
  destruct (revised_loop_quiet b fuel 0) as (Hc & Hr & _).
  pose proof (revised_loop_never_exits b fuel 0) as Hex.
  destruct (Revised.challenge_loop fuel 0 b) as [[[]|e|c|] tr]; simpl in *;
    repeat split; eauto.
  - now destruct (Hex c).
  - now destruct Hend.
Qed.

(** X7.  With enough steps for its loop to end, the reworked bootstrap
    ends in one of three ways.  It is rejected, with nothing reported,
    when a call outside its try block rejects: [launch], [newContext],
    [addCookies] or [newPage] before it, in which case the page is not
    visited and [close] is not called, or [cookies] or [close] in the
    finally block after a try block that completed.  It stops the
    process with status 1, the failure printed and [close] not called,
    when the try block throws, whatever the finally block would have
    done.  Otherwise it returns the cookies of the context, with [close]
    called and nothing reported. *)
Theorem revised_bootstrap_outcomes (p : playwright) (fuel : nat) (url : string)
    (existingCookies : list cookie) (b : browser) :
  6 <= fuel ->
  let res := RevisedSession.preloadCookies p fuel url existingCookies b in
  let tried := (Revised.try_block fuel url b).1 in
  match first_rejection [pw_launch p; pw_newContext p; pw_addCookies p; pw_newPage p] with
  | Some e =>
      res.1 = Rejected e /\ reports_failure res.2 = false /\ closes res.2 = false /\
      existsb (fun x => match x with Goto _ => true | _ => false end) res.2 = false
  | None =>
      ((exists e, tried = Rejected e) /\
       res.1 = Exited 1 /\ reports_failure res.2 = true /\ closes res.2 = false) \/
      (tried = Returned tt /\ reports_failure res.2 = false /\
       match first_rejection [pw_cookies p; pw_close p] with
       | Some e => res.1 = Rejected e
       | None => res.1 = Returned (context_cookies b) /\ closes res.2 = true
       end)
  end.
Proof.
  intros Hf res tried. subst res tried.
  unfold RevisedSession.preloadCookies, RevisedSession.opening.
  destruct (pw_launch p) as [[]|e]; simpl; [|auto].
  destruct (pw_newContext p) as [[]|e]; simpl; [|auto].
  destruct (pw_addCookies p) as [[]|e]; simpl; [|auto].
  destruct (pw_newPage p) as [[]|e]; simpl; [|auto].
  destruct (revised_try_block_ends fuel url b Hf) as (Hc & Hr & Hend).
  destruct (Revised.try_block fuel url b) as [o tr]. simpl in Hc, Hr, Hend.
  unfold closes, reports_failure in *.
  destruct Hend as [->|[e ->]].
  - right. split; [reflexivity|]. unfold RevisedSession.finally.
    destruct (pw_cookies p) as [[]|e]; [destruct (pw_close p) as [[]|e]|];
      simpl; rewrite !existsb_app, ?Hc, ?Hr; simpl; auto using orb_true_r.
  - left. split; [eauto|]. simpl. rewrite !existsb_app, Hc, Hr. simpl. auto.
Qed.

Lemma revised_bootstrap_outcomes_witness :
  (RevisedSession.preloadCookies close_fails 6 chapter [] welcome).1
  = Rejected (ErrorObj "browser.close: Target page, context or browser has been closed") /\
  (RevisedSession.preloadCookies untroubled 6 chapter [] unreachable).1 = Exited 1.
Proof.
  split.
  - pose proof (revised_bootstrap_outcomes close_fails 6 chapter [] welcome
                  ltac:(lia)) as H.
    simpl in H. destruct H as [((e & He) & _)|(_ & _ & H)]; [discriminate|exact H].
  - pose proof (revised_bootstrap_outcomes untroubled 6 chapter [] unreachable
                  ltac:(lia)) as H.
    simpl in H. destruct H as [(_ & H & _)|(H & _)]; [exact H|discriminate].
Defined.

(** X8.  Both bootstraps tell the operator about the challenge exactly
    once when the first title read after a successful navigation is the
    challenge title, however many turns the loop takes, and never
    otherwise. *)
Theorem challenge_guidance_is_printed_once (fuel : nat) (url : string)
    (cs : list cookie) (b : browser) :
  0 < fuel ->
  guidance (Revised.preloadCookies fuel url cs b).2 = (if meets_challenge b then 1 else 0) /\
  guidance (Index.preloadCookies fuel url cs b).2 = (if meets_challenge b then 1 else 0).
Proof.
  intros Hf. destruct fuel as [|fuel]; [lia|]. clear Hf.
  unfold meets_challenge, Revised.preloadCookies, Revised.try_block, Index.preloadCookies.
  destruct (goto b) as [[]|e]; simpl; [|auto].
  destruct (innerText b 0) as [t|e]; simpl; [|auto].
  destruct ((t =? challenge_title)%string); simpl; [|auto].
  destruct (waitForURL b 0) as [[]|e]; simpl; [|auto].
  destruct (revised_loop_quiet b fuel 1) as (_ & _ & Hr). specialize (Hr ltac:(lia)).
  destruct (index_loop_quiet b fuel 1 true) as (_ & Hi). specialize (Hi eq_refl).
  destruct (Revised.challenge_loop fuel 1 b) as [[[]|e|c|] tr];
    destruct (Index.challenge_loop fuel 1 true b) as [[[]|e'|c'|] tr'];
    simpl in *; rewrite ?guidance_app, ?Hr, ?Hi; simpl; auto.
Qed.

Lemma challenge_guidance_is_printed_once_witness :
  guidance (Revised.preloadCookies 6 chapter [] stuck).2 = 1 /\
  guidance (Index.preloadCookies 6 chapter [] stuck).2 = 1.
Proof.
  apply (challenge_guidance_is_printed_once 6 chapter [] stuck). lia.
Defined.

Lemma index_loop_returns (b : browser) (t : string) (k : nat) :
  forall fuel n initial,
    k < fuel ->
    (forall i, i < k -> innerText b (n + i) = Ok challenge_title /\
                        waitForURL b (n + i) = Ok tt) ->
    innerText b (n + k) = Ok t -> t <> challenge_title ->
    (Index.challenge_loop fuel n initial b).1 = Returned tt /\
    waits (Index.challenge_loop fuel n initial b).2 = k.
Proof.
  induction k as [|k IH]; intros fuel n initial Hk Hch Ht Hne;
    (destruct fuel as [|fuel]; [lia|]); simpl.
  - rewrite Nat.add_0_r in Ht. rewrite Ht.
    apply String.eqb_neq in Hne. rewrite Hne. auto.
  - destruct (Hch 0 ltac:(lia)) as [H1 H2]. rewrite Nat.add_0_r in H1, H2.
    rewrite H1, H2, String.eqb_refl.
    assert (forall i, i < k -> innerText b (S n + i) = Ok challenge_title /\
                               waitForURL b (S n + i) = Ok tt) as Hch'.
    { intros i Hi. replace (S n + i) with (n + S i) by lia. apply Hch. lia. }
    assert (innerText b (S n + k) = Ok t) as Ht'
      by now replace (S n + k) with (n + S k) by lia.
    destruct (IH fuel (S n) true ltac:(lia) Hch' Ht' Hne) as [I1 I2].
    destruct (Index.challenge_loop fuel (S n) true b) as [o tr]. simpl in *.
    split; [exact I1|]. destruct initial; simpl; now rewrite I2.
Qed.

Lemma index_loop_running (b : browser) (fuel : nat) :
  forall n initial,
    (forall i, i < fuel -> innerText b (n + i) = Ok challenge_title /\
                           waitForURL b (n + i) = Ok tt) ->
    (Index.challenge_loop fuel n initial b).1 = Running /\
    waits (Index.challenge_loop fuel n initial b).2 = fuel.
Proof.
  induction fuel as [|fuel IH]; intros n initial Hch; simpl; [auto|].
  destruct (Hch 0 ltac:(lia)) as [H1 H2]. rewrite Nat.add_0_r in H1, H2.
  rewrite H1, H2, String.eqb_refl.
  destruct (IH (S n) true) as [I1 I2].
  { intros i Hi. replace (S n + i) with (n + S i) by lia. apply Hch. lia. }
  destruct (Index.challenge_loop fuel (S n) true b) as [o tr]. simpl in *.
  split; [exact I1|]. destruct initial; simpl; now rewrite I2.
Qed.

Lemma revised_loop_returns (b : browser) (t : string) (k : nat) :
  forall fuel n,
    k < fuel -> n + k <= 5 ->
    (forall i, i < k -> innerText b (n + i) = Ok challenge_title /\
                        waitForURL b (n + i) = Ok tt) ->
    innerText b (n + k) = Ok t -> t <> challenge_title ->
    (Revised.challenge_loop fuel n b).1 = Returned tt /\
    waits (Revised.challenge_loop fuel n b).2 = k.
Proof.
  induction k as [|k IH]; intros fuel n Hk Hb Hch Ht Hne;
    (destruct fuel as [|fuel]; [lia|]); simpl.
  - rewrite Nat.add_0_r in Ht. rewrite Ht.
    apply String.eqb_neq in Hne. rewrite Hne. auto.
  - destruct (Hch 0 ltac:(lia)) as [H1 H2]. rewrite Nat.add_0_r in H1, H2.
    rewrite H1, H2, String.eqb_refl.
    assert ((n <? 5)%nat = true) as -> by (apply Nat.ltb_lt; lia). simpl.
    assert (forall i, i < k -> innerText b (n + 1 + i) = Ok challenge_title /\
                               waitForURL b (n + 1 + i) = Ok tt) as Hch'.
    { intros i Hi. replace (n + 1 + i) with (n + S i) by lia. apply Hch. lia. }
    assert (innerText b (n + 1 + k) = Ok t) as Ht'
      by now replace (n + 1 + k) with (n + S k) by lia.
    destruct (IH fuel (n + 1) ltac:(lia) ltac:(lia) Hch' Ht' Hne) as [I1 I2].
    destruct (Revised.challenge_loop fuel (n + 1) b) as [o tr]. simpl in *.
    split; [exact I1|]. rewrite waits_notice. simpl. now rewrite I2.
Qed.

(** X9.  The bootstrap of [src/index.ts] waits as long as the challenge
    is shown: it is still running after any number of turns during which
    the title is the challenge title, and it returns the cookies of the
    context, with the browser closed, at the first title that differs,
    after one wait per turn.  When that happens within five turns the
    reworked bootstrap returns the same cookies after the same waits. *)
Theorem index_bootstrap_waits_for_the_page (fuel : nat) (url : string)
    (cs : list cookie) (b : browser) :
  goto b = Ok tt ->
  let ix := Index.preloadCookies fuel url cs b in
  let rv := Revised.preloadCookies fuel url cs b in
  (challenged b fuel -> ix.1 = Running /\ waits ix.2 = fuel) /\
  (forall k t, k < fuel -> challenged b k -> innerText b k = Ok t ->
               t <> challenge_title ->
               ix.1 = Returned (context_cookies b) /\ waits ix.2 = k /\
               closes ix.2 = true /\
               (k <= 5 -> rv.1 = ix.1 /\ waits rv.2 = k)).
Proof.
  intros Hg ix rv. subst ix rv.
  unfold Index.preloadCookies, Revised.preloadCookies, Revised.try_block. rewrite Hg.
  split.
  - intros Hch. destruct (index_loop_running b fuel 0 false Hch) as [H1 H2].
    destruct (Index.challenge_loop fuel 0 false b) as [o tr]. simpl in *. subst o.
    simpl. auto.
  - intros k t Hk Hch Ht Hne.
    destruct (index_loop_returns b t k fuel 0 false Hk Hch Ht Hne) as [H1 H2].
    destruct (Index.challenge_loop fuel 0 false b) as [o tr]. simpl in *. subst o.
    simpl. rewrite waits_app, closes_app. simpl. rewrite orb_true_r.
    repeat split; try lia.
    + destruct (revised_loop_returns b t k fuel 0 Hk ltac:(lia) Hch Ht Hne) as [R1 R2].
      destruct (Revised.challenge_loop fuel 0 b) as [o' tr']. simpl in *. now subst o'.
    + destruct (revised_loop_returns b t k fuel 0 Hk ltac:(lia) Hch Ht Hne) as [R1 R2].
      destruct (Revised.challenge_loop fuel 0 b) as [o' tr']. simpl in *. subst o'.
      simpl. rewrite waits_app. simpl. lia.
Qed.

Lemma index_bootstrap_waits_for_the_page_witness :
  (Index.preloadCookies 6 chapter [] solved_after_two).1 = Returned session /\
  waits (Index.preloadCookies 6 chapter [] solved_after_two).2 = 2 /\
  closes (Index.preloadCookies 6 chapter [] solved_after_two).2 = true /\
  (2 <= 5 ->
   (Revised.preloadCookies 6 chapter [] solved_after_two).1
   = (Index.preloadCookies 6 chapter [] solved_after_two).1 /\
   waits (Revised.preloadCookies 6 chapter [] solved_after_two).2 = 2).
Proof.
  apply (proj2 (index_bootstrap_waits_for_the_page 6 chapter [] solved_after_two eq_refl)
           2 "One Piece").
  - lia.
  - intros i Hi. destruct i as [|[|i]]; [split; reflexivity|split; reflexivity|lia].
  - reflexivity.
  - discriminate.
Defined.

(** ** The cookie stage *)


(** X11.  The cookie stage of [src/index.ts] is rejected, before any
    browser is launched, as soon as the cookie file exists and cannot be
    read or parsed; with an absent or well-formed file and a disk that
    accepts the write, whenever its validation returns it leaves in the
    file exactly the cookies of the validated context. *)
Theorem index_cookie_stage (fuel : nat) (url : string) (f : cookie_file)
    (b : browser) :
  let res := Index.manage_cookies fuel url f None b in
  (forall e, f = Unreadable e \/ f = Unparsable e ->
     res.1.1 = Rejected e /\ res.1.2 = f /\
     existsb (fun x => match x with Launch => true | _ => false end) res.2 = false) /\
  (forall cs, res.1.1 = Returned cs ->
     cs = context_cookies b /\ res.1.2 = Stored (context_cookies b)).
Proof.
  unfold Index.manage_cookies. split.
  - intros e [-> | ->]; simpl; auto.
  - intros cs. destruct (Index.loadSavedCookies f) as [loaded|e]; simpl; [|discriminate].
    unfold Index.preloadCookies.
    destruct (goto b) as [[]|e]; simpl; [|discriminate].
    destruct (Index.challenge_loop fuel 0 false b) as [[[]|e|c|] tr]; simpl;
      try discriminate.
    intros [= <-]. auto.
Qed.

(** ** The handlers, in general *)

(** X12.  In the reworked handler the total read from the manifest is
    one more than the number of commas of the text between the brackets;
    for a manifest that lists n elements, n at least 1, none of which
    holds a comma, it is n.  When the stream of the bar is a terminal the
    bar then starts at 0 of that total, with the suffix of the
    initialisation; when it is not, the bar is left as it was. *)
Theorem revised_total_is_commas_plus_one (url dest : string) (st : Revised.pipeline)
    (r : response) (body : string) (m : list string) :
  resp_url r = url -> resp_ok r = true -> resp_text r = Ok body ->
  js_match images_re body = Some m ->
  let st' := Revised.run url dest [Deliver r; Resume (length (Revised.awaiting st))] st in
  Revised.totalImages st' = S (commas (at_index m 1)) /\
  (forall es, at_index m 1 = join_commas es -> es <> [] ->
              (forall e, In e es -> commas e = 0) ->
              Revised.totalImages st' = length es) /\
  (bar_tty (Revised.progressBar st) = true ->
   Revised.progressBar st'
   = Bar true (Revised.totalImages st') 0 (Some Initialisation) true) /\
  (bar_tty (Revised.progressBar st) = false ->
   Revised.progressBar st' = Revised.progressBar st).
Proof.
  intros Hu Hok Ht Hm st'.
  pose proof (revised_manifest_restart url dest st r body m Hu Hok Ht Hm) as H.
  cbv zeta in H. fold st' in H. rewrite js_split_commas in H.
  destruct H as (H1 & H2). rewrite H1, H2. unfold bar_start.
  split; [reflexivity|]. split.
  - intros es Hj Hne Hfree. rewrite Hj. now apply join_commas_fields.
  - split; intros ->; reflexivity.
Qed.

Lemma revised_total_is_commas_plus_one_witness :
  Revised.totalImages
    (Revised.run chapter "./dl" [Deliver (primary_response chapter "a.jpg,b.jpg"); Resume 0]
       (Revised.start_state true)) = 2.
Proof.
  apply (revised_total_is_commas_plus_one chapter "./dl" (Revised.start_state true)
           (primary_response chapter "a.jpg,b.jpg") (manifest_body "a.jpg,b.jpg")
           [text (quote :: chars "images" ++ [quote]) +:+ ": [a.jpg,b.jpg]"; "a.jpg,b.jpg"]
           eq_refl eq_refl eq_refl).
  vm_compute. reflexivity.
Defined.

(** X13.  A response that is not ok (its status is neither 0 nor in the
    range 200-299) changes nothing in the pipeline of [src/index.ts].
    The reworked handler does not look at the status of an asset: for a
    URL other than the target, what it does depends on the URL of the
    response only. *)
Theorem status_and_discovery (url dest : string) (r r' : response) :
  (forall st, resp_ok r = false -> Index.step url dest (Deliver r) st = st) /\
  (forall st, resp_url r = resp_url r' -> resp_url r <> url ->
     Revised.step url dest (Deliver r) st = Revised.step url dest (Deliver r') st).
Proof.
  split.
  - intros st Hok. simpl. unfold Index.on_response, Index.discover. now rewrite Hok.
  - intros st Hu Hne. simpl. unfold Revised.on_response.
    rewrite <- Hu. apply String.eqb_neq in Hne. rewrite Hne. simpl.
    unfold Revised.discover. now rewrite <- Hu.
Qed.

Lemma status_and_discovery_witness :
  Index.step chapter "./dl" (Deliver (not_found onepiece_001)) (Index.start_state true)
  = (Index.start_state true) /\
  Revised.step chapter "./dl" (Deliver (not_found onepiece_001)) (Revised.start_state true)
  = Revised.step chapter "./dl" (Deliver (ok_response onepiece_001)) (Revised.start_state true).
Proof.
  split.
  - apply (proj1 (status_and_discovery chapter "./dl" (not_found onepiece_001)
                    (ok_response onepiece_001))). reflexivity.
  - apply (proj2 (status_and_discovery chapter "./dl" (not_found onepiece_001)
                    (ok_response onepiece_001))); [reflexivity|discriminate].
Defined.

(** X14.  In the reworked handler a URL that passes the filter and that
    the extraction pattern does not match is reported once: its first
    event prints the error, creates no download and records the URL;
    from then on, whatever happens in between, every event that carries
    this URL, with whatever status and body, changes nothing. *)
Theorem revised_malformed_asset_is_reported_once (url dest : string) (r : response)
    (st : Revised.pipeline) :
  resp_url r <> url ->
  js_match upload_asset_re (resp_url r) <> None ->
  js_match folder_name_re (resp_url r) = None ->
  resp_url r ∉ Revised.processedUrls st ->
  let st' := Revised.step url dest (Deliver r) st in
  Revised.console st' = Revised.console st ++ [ProcessingError (message_of not_iterable)] /\
  Revised.downloadQueue st' = Revised.downloadQueue st /\
  resp_url r ∈ Revised.processedUrls st' /\
  (forall (acts : list action) (r' : response),
     resp_url r' = resp_url r ->
     let st'' := Revised.run url dest acts st' in
     Revised.step url dest (Deliver r') st'' = st'').
Proof.
  intros Hne Hf He Hin st'.
  destruct (revised_malformed_asset url dest r st Hne Hf He Hin) as (H1 & H2 & _).
  fold st' in H1, H2.
  assert (resp_url r ∈ Revised.processedUrls st') as Hseen
    by now apply revised_deliver_seen.
  split; [exact H1|]. split; [exact H2|]. split; [exact Hseen|].
  intros acts r' Hr' st''.
  assert (resp_url r' ∈ Revised.processedUrls st'') as Hseen'.
  { rewrite Hr'. now apply revised_run_mono. }
  simpl. unfold Revised.on_response.
  rewrite Hr'. apply String.eqb_neq in Hne. rewrite Hne. simpl.
  unfold Revised.discover. rewrite (bool_decide_eq_true_2 _ Hseen').
  now rewrite andb_false_r.
Qed.

Lemma revised_malformed_asset_is_reported_once_witness :
  let st' := Revised.step chapter "./dl" (Deliver (ok_response one_piece_1))
               (Revised.start_state true) in
  let st'' := Revised.run chapter "./dl"
                [Deliver (ok_response onepiece_001); Try 0 success; Then 0] st' in
  Revised.console st' = [ProcessingError (message_of not_iterable)] /\
  Revised.step chapter "./dl" (Deliver (not_found one_piece_1)) st'' = st''.
Proof.
  intros st' st''.
  destruct (revised_malformed_asset_is_reported_once chapter "./dl"
              (ok_response one_piece_1) (Revised.start_state true))
    as (H1 & _ & _ & H4).
  - discriminate.
  - vm_compute. discriminate.
  - vm_compute. reflexivity.
  - apply not_elem_of_empty.
  - split; [exact H1|].
    apply (H4 [Deliver (ok_response onepiece_001); Try 0 success; Then 0]
              (not_found one_piece_1)).
    reflexivity.
Defined.

Lemma descriptor_insert (q : list task) (i attempts : nat) (p : phase) (t : task) :
  q !! i = Some t ->
  descriptor <$> <[i:=task_with attempts p t]> q = descriptor <$> q.
Proof.
  intros H. rewrite list_fmap_insert. apply list_insert_id.
  rewrite list_lookup_fmap, H. reflexivity.
Qed.

Lemma revised_step_keeps_queue (url dest : string) (a : action) (st : Revised.pipeline) :
  (descriptor <$> Revised.downloadQueue st)
    `prefix_of` (descriptor <$> Revised.downloadQueue (Revised.step url dest a st)).
Proof.
  assert (forall r s, (descriptor <$> Revised.downloadQueue s)
            `prefix_of` (descriptor <$> Revised.downloadQueue (Revised.discover dest r s)))
    as Hd.
  { intros r s. unfold Revised.discover. destruct (_ && _); [|reflexivity].
    destruct (js_match folder_name_re (resp_url r)); simpl; [|reflexivity].
    rewrite fmap_app. now apply prefix_app_r. }
  destruct a as [r|i|i a|i]; simpl.
  - unfold Revised.on_response. destruct (_ && _); [reflexivity|apply Hd].
  - destruct (Revised.awaiting st !! i) as [r|]; [|reflexivity].
    unfold Revised.on_text. destruct (resp_text r) as [body|e]; [|reflexivity].
    destruct (js_match images_re body) as [m|]; [|reflexivity].
    etransitivity; [|apply Hd]. reflexivity.
  - destruct (Revised.downloadQueue st !! i) as [t|] eqn:Ei; [|reflexivity].
    destruct (task_phase t); try reflexivity.
    destruct (Revised.turn_of _ _ _ _ _ _ _ _); simpl;
      now rewrite descriptor_insert.
  - destruct (Revised.downloadQueue st !! i) as [t|] eqn:Ei; [|reflexivity].
    destruct (task_phase t); try reflexivity. simpl. now rewrite descriptor_insert.
Qed.

Lemma index_step_keeps_queue (url dest : string) (a : action) (st : Index.pipeline) :
  (descriptor <$> Index.downloadPromises st)
    `prefix_of` (descriptor <$> Index.downloadPromises (Index.step url dest a st)).
Proof.
  assert (forall r s, (descriptor <$> Index.downloadPromises s)
            `prefix_of` (descriptor <$> Index.downloadPromises (Index.discover dest r s)))
    as Hd.
  { intros r s. unfold Index.discover. destruct (_ && _); [|reflexivity].
    destruct (js_match folder_name_re (resp_url r)); simpl; [|reflexivity].
    rewrite fmap_app. now apply prefix_app_r. }
  destruct a as [r|i|i a|i]; simpl; [| | |reflexivity].
  - unfold Index.on_response. destruct (_ && _); [reflexivity|apply Hd].
  - destruct (Index.awaiting st !! i) as [r|]; [|reflexivity].
    unfold Index.on_text. destruct (resp_text r) as [body|e]; [|reflexivity].
    destruct (js_match images_re body) as [m|]; [|reflexivity].
    etransitivity; [|apply Hd]. reflexivity.
  - destruct (Index.downloadPromises st !! i) as [t|] eqn:Ei; [|reflexivity].
    destruct (task_phase t); try reflexivity.
    destruct (Index.turn_of _ _ _ _ _ _ _); simpl; [|reflexivity].
    now rewrite descriptor_insert.
Qed.

(** X15.  In both variants a download, once queued, is never dropped,
    moved or given another target: whatever happens next, the queue
    still begins with the same downloads, with the same URL, folder,
    name and destination, in the same order. *)
Theorem queued_downloads_stay (tty : bool) (url dest : string) (acts more : list action) :
  (descriptor <$> Revised.downloadQueue (Revised.run url dest acts (Revised.start_state tty)))
    `prefix_of`
  (descriptor <$> Revised.downloadQueue
     (Revised.run url dest (acts ++ more) (Revised.start_state tty))) /\
  (descriptor <$> Index.downloadPromises (Index.run url dest acts (Index.start_state tty)))
    `prefix_of`
  (descriptor <$> Index.downloadPromises
     (Index.run url dest (acts ++ more) (Index.start_state tty))).
Proof.
  rewrite run_app_revised, run_app_index. split.
  - generalize (Revised.run url dest acts (Revised.start_state tty)).
    induction more as [|a more IH]; intros st; simpl; [reflexivity|].
    etransitivity; [apply (revised_step_keeps_queue url dest a)|apply IH].
  - generalize (Index.run url dest acts (Index.start_state tty)).
    induction more as [|a more IH]; intros st; simpl; [reflexivity|].
    etransitivity; [apply (index_step_keeps_queue url dest a)|apply IH].
Qed.

(** ** The main function *)











Lemma quiet_said (l : notice) :
  match l with Succeeded _ | Complete => False | _ => True end -> quiet [Say l].
Proof. destruct l; simpl; intros H; try contradiction; repeat split. Qed.

















(** ** The command line *)

(** X19.  The reworked program creates the destination folder and
    starts the download only when no help flag is set and a URL is
    given; a help request ends with status 0 and a missing URL with
    status 1, both before anything is created.  The download then gets
    the first positional argument and, as destination, the value of -d
    if it is truthy, else that of --dest if it is truthy, else ./dl. *)
Theorem revised_command_line (a : parsed) (mkdir : result unit) (ending : outcome unit) :
  let l := revised_main a mkdir ending in
  (creates_folder l = true <->
   truthy (opt_h a) = false /\ truthy (opt_help a) = false /\
   truthy (first_positional a) = true) /\
  (forall u d, In (Download u d) l <->
     creates_folder l = true /\ mkdir = Ok tt /\ u = first_positional a /\
     d = (if truthy (opt_d a) then opt_d a
          else if truthy (opt_dest a) then opt_dest a else Text "./dl")) /\
  (truthy (opt_h a) = true \/ truthy (opt_help a) = true -> l = [ShowHelp; Terminate 0]) /\
  (truthy (opt_h a) = false -> truthy (opt_help a) = false ->
   truthy (first_positional a) = false -> l = [ShowUsage; Terminate 1]).
Proof.
  unfold revised_main, js_or.
  destruct (truthy (opt_h a)) eqn:Eh; simpl;
    [|destruct (truthy (opt_help a)) eqn:Ehelp; simpl].
  - rewrite Eh. simpl. repeat split; try discriminate; try tauto;
      intros; intuition (try discriminate).
  - repeat split; try discriminate; try tauto;
      intros; intuition (try discriminate).
  - 
    destruct (truthy (first_positional a)) eqn:Eu; simpl.
    + destruct mkdir as [[]|e]; simpl.
      * split; [tauto|]. split; [|split; [intros [|]; discriminate|discriminate]].
        intros u d. split.
        -- intros [H|[H|H]]; [discriminate| |].
           ++ injection H as <- <-. repeat split.
           ++ destruct ending; simpl in H; intuition discriminate.
        -- intros (_ & _ & -> & ->). right. left. reflexivity.
      * split; [tauto|]. split; [|split; [intros [|]; discriminate|discriminate]].
        intros u d. split.
        -- intros [H|[H|[]]]; discriminate.
        -- intros (_ & H & _). discriminate.
    + split; [split; [discriminate|intros (_ & _ & H); discriminate]|].
      split; [|split; [intros [|]; discriminate|reflexivity]].
      intros u d. split.
      * intros [H|[H|[]]]; discriminate.
      * intros (H & _). discriminate.
Qed.

(** X20.  The program of [src/index.ts] creates the destination folder
    before it looks for the URL, so also when the URL is missing, in
    which case it then ends with status 1; a help flag prints the help
    and stops nothing; the option --dest is not read; the destination is
    the value of -d if it is truthy, else ./dl. *)
Theorem index_command_line (a : parsed) (ending : outcome unit) :
  let l := index_main a (Ok tt) ending in
  In (EnsureDir (if truthy (opt_d a) then opt_d a else Text "./dl")) l /\
  (starts_download l = truthy (first_positional a)) /\
  (truthy (first_positional a) = false ->
   exists pre, l = pre ++ [EnsureDir (js_or (opt_d a) (Text "./dl"));
                           ShowUsage; Terminate 1]) /\
  (forall v mkdir,
     index_main (Parsed (opt_h a) (opt_help a) (opt_d a) v (positional a)) mkdir ending
     = index_main a mkdir ending) /\
  (forall h h' mkdir,
     starts_download
       (index_main (Parsed h h' (opt_d a) (opt_dest a) (positional a)) mkdir ending)
     = starts_download (index_main a mkdir ending)).
Proof.
  unfold index_main, js_or, starts_download, first_positional. simpl.
  split; [|split; [|split; [|split]]].
  - apply in_cons, in_or_app. right. simpl. auto.
  - rewrite existsb_app.
    destruct (truthy (_ : jsval)) at 1; simpl;
      destruct (truthy (default Undefined (positional a !! 0))); reflexivity.
  - intros Hu. rewrite Hu. simpl.
    destruct (if truthy (opt_h a) then truthy (opt_h a) else truthy (opt_help a)) eqn:E.
    + exists [ShowArgs; ShowHelp].
      destruct (truthy (if truthy (opt_h a) then opt_h a else opt_help a)) eqn:E';
        [reflexivity|].
      destruct (truthy (opt_h a)) eqn:Eh; congruence.
    + exists [ShowArgs].
      destruct (truthy (if truthy (opt_h a) then opt_h a else opt_help a)) eqn:E';
        [|reflexivity].
      destruct (truthy (opt_h a)) eqn:Eh; congruence.
  - reflexivity.
  - intros h h' mkdir. rewrite !existsb_app.
    destruct (truthy (if truthy h then h else h'));
      destruct (truthy (if truthy (opt_h a) then opt_h a else opt_help a)); reflexivity.
Qed.
